(** * Readable: preference cells, durable persistence and style projection

    Shallow embedding of the page component [Page] and of its hook
    [useSafeLocalStorage].

    Conventions of the embedding:
    - a JavaScript value is a [jsval]; a JavaScript number is an exact
      finite decimal [number] (binary rounding, NaN and the infinities
      are outside the model);
    - a JavaScript string is a [string] of bytes; bytes above 127 stand
      for themselves;
    - an abrupt completion (a thrown exception) is [Throw], a normal one
      is [Normal]; [try_catch] is the [try { } catch { }] statement;
    - [window.localStorage] is a [Storage]: its items and, per call, the
      calls that throw. *)

From Stdlib Require Import ZArith Ascii String List Lia Bool.
From stdpp Require Import gmap strings list.

Local Open Scope string_scope.
Local Open Scope list_scope.
Local Open Scope Z_scope.

(** ** Completions *)

Inductive exn := TypeError | SyntaxError | DOMException.

Inductive completion (A : Type) :=
| Normal (a : A)
| Throw (e : exn).
Arguments Normal {A} a.
Arguments Throw {A} e.

#[global] Instance completion_ret : MRet completion := fun A a => Normal a.

#[global] Instance completion_bind : MBind completion := fun A B k c =>
  match c with
  | Normal a => k a
  | Throw e => Throw e
  end.

(** [try { body } catch { handler }] *)
Definition try_catch {A} (body : completion A) (handler : exn -> completion A) : completion A :=
  match body with
  | Normal a => Normal a
  | Throw e => handler e
  end.

(** ** Numbers: finite decimals [mant / 10^scale] *)

Record number := mkNum { mant : Z; scale : nat }.

(** The canonical form has no trailing zero after the decimal point. *)
Definition canonical (n : number) : bool :=
  match scale n with
  | O => true
  | S _ => negb (mant n mod 10 =? 0)
  end.

Fixpoint strip (m : Z) (sc : nat) : number :=
  match sc with
  | O => mkNum m 0
  | S sc' => if m mod 10 =? 0 then strip (m / 10) sc' else mkNum m sc
  end.

(** [make_number m e] is [m * 10^e] in canonical form. *)
Definition make_number (m e : Z) : number :=
  if 0 <=? e then mkNum (m * 10 ^ e) 0 else strip m (Z.to_nat (- e)).

Definition num_of_Z (z : Z) : number := mkNum z 0.

Definition Num_leb (a b : number) : bool :=
  mant a * 10 ^ Z.of_nat (scale b) <=? mant b * 10 ^ Z.of_nat (scale a).

Definition Num_ltb (a b : number) : bool :=
  mant a * 10 ^ Z.of_nat (scale b) <? mant b * 10 ^ Z.of_nat (scale a).

Definition Num_eqb (a b : number) : bool :=
  (mant a =? mant b) && Nat.eqb (scale a) (scale b).

(** ** JavaScript values that JSON can carry *)

#[warnings="-register-all"]
Inductive jsval :=
| JNull
| JBool (b : bool)
| JNum (n : number)
| JStr (s : string)
| JArr (l : list jsval)
| JObj (l : list (string * jsval)).

(** [Object.is] on two values. Arrays and objects are compared by
    reference; a freshly parsed or freshly built one is identical to no
    other value. *)
Definition Object_is (a b : jsval) : bool :=
  match a, b with
  | JNull, JNull => true
  | JBool x, JBool y => Bool.eqb x y
  | JNum x, JNum y => Num_eqb x y
  | JStr x, JStr y => String.eqb x y
  | _, _ => false
  end.

(** [a === b] against a string literal. *)
Definition strict_eq_str (a : jsval) (lit : string) : bool :=
  match a with
  | JStr x => String.eqb x lit
  | _ => false
  end.

(** ** Decimal digits *)

Definition digit_char (d : Z) : ascii := ascii_of_nat (Z.to_nat (48 + d)).

Fixpoint digits_aux (fuel : nat) (n : Z) (acc : list Z) : list Z :=
  match fuel with
  | O => acc
  | S f =>
      let acc' := (n mod 10) :: acc in
      if n <? 10 then acc' else digits_aux f (n / 10) acc'
  end.

(** The decimal digits of [n >= 0], most significant first. *)
Definition digits (n : Z) : list Z :=
  digits_aux (S (Z.to_nat (Z.log2 n))) n [].

Fixpoint of_digits (acc : Z) (ds : list Z) : Z :=
  match ds with
  | [] => acc
  | d :: ds' => of_digits (10 * acc + d) ds'
  end.

Fixpoint strip_zeros_rev (ds : list Z) : list Z :=
  match ds with
  | 0 :: ds' => strip_zeros_rev ds'
  | _ => ds
  end.

(** Digits without their trailing zeros. *)
Definition drop_trailing_zeros (ds : list Z) : list Z :=
  rev (strip_zeros_rev (rev ds)).

Definition chars (ds : list Z) : list ascii := map digit_char ds.

Definition zeros (n : nat) : list ascii := repeat "0"%char n.

(** ** [Number::toString] (radix 10)

    With [s] the significant digits, [k] their count and [n] the
    position of the decimal point, the four layouts of the language
    standard: plain integer, digits with a point inside, [0.000ddd], and
    exponential notation. *)

Definition Number_toString (x : number) : list ascii :=
  if mant x =? 0 then ["0"%char] else
  let sign := if mant x <? 0 then ["-"%char] else [] in
  let D := digits (Z.abs (mant x)) in
  let s := drop_trailing_zeros D in
  let k := Z.of_nat (length s) in
  let n := Z.of_nat (length D) - Z.of_nat (scale x) in
  sign ++
  if (k <=? n) && (n <=? 21) then
    chars s ++ zeros (Z.to_nat (n - k))
  else if (0 <? n) && (n <=? 21) then
    chars (take (Z.to_nat n) s) ++ "."%char :: chars (drop (Z.to_nat n) s)
  else if (-6 <? n) && (n <=? 0) then
    "0"%char :: "."%char :: zeros (Z.to_nat (- n)) ++ chars s
  else
    let e := n - 1 in
    let esign := if e <? 0 then "-"%char else "+"%char in
    let etxt := "e"%char :: esign :: chars (digits (Z.abs e)) in
    match s with
    | [d] => digit_char d :: etxt
    | d :: ds => digit_char d :: "."%char :: chars ds ++ etxt
    | [] => etxt
    end.

Definition has_key (k : string) (l : list (string * jsval)) : bool :=
  existsb (fun p => String.eqb (fst p) k) l.

Fixpoint join (sep : list ascii) (parts : list (list ascii)) : list ascii :=
  match parts with
  | [] => []
  | [p] => p
  | p :: ps => p ++ sep ++ join sep ps
  end.

(** [ToString(v)], as a template literal or [String(v)] applies it. An
    array joins its elements with commas ([null] elements give the empty
    string); an object gives [[object Object]] through
    [Object.prototype.toString], unless an own data property [toString]
    shadows it, in which case the conversion throws a [TypeError]. *)
Fixpoint ToString_chars (v : jsval) : completion (list ascii) :=
  match v with
  | JNull => Normal (list_ascii_of_string "null")
  | JBool true => Normal (list_ascii_of_string "true")
  | JBool false => Normal (list_ascii_of_string "false")
  | JNum n => Normal (Number_toString n)
  | JStr s => Normal (list_ascii_of_string s)
  | JArr l =>
      let fix elems (l : list jsval) : completion (list (list ascii)) :=
        match l with
        | [] => Normal []
        | JNull :: l' => ps ← elems l'; Normal ([] :: ps)
        | x :: l' => p ← ToString_chars x; ps ← elems l'; Normal (p :: ps)
        end in
      ps ← elems l; Normal (join [","%char] ps)
  | JObj props =>
      if has_key "toString" props then Throw TypeError
      else Normal (list_ascii_of_string "[object Object]")
  end.

Definition ToString (v : jsval) : completion string :=
  cs ← ToString_chars v; Normal (string_of_list_ascii cs).

(** ** [JSON.stringify] *)

(** The quotation mark. *)
Definition dquote : ascii := ascii_of_nat 34.

Definition hex_char (d : Z) : ascii :=
  if d <? 10 then digit_char d else ascii_of_nat (Z.to_nat (87 + d)).

Definition code (c : ascii) : Z := Z.of_nat (nat_of_ascii c).

(** [QuoteJSONString] on one character. *)
Definition quote_char (c : ascii) : list ascii :=
  let n := code c in
  if n =? 34 then ["\"%char; dquote]
  else if n =? 92 then ["\"%char; "\"%char]
  else if n =? 8 then ["\"%char; "b"%char]
  else if n =? 12 then ["\"%char; "f"%char]
  else if n =? 10 then ["\"%char; "n"%char]
  else if n =? 13 then ["\"%char; "r"%char]
  else if n =? 9 then ["\"%char; "t"%char]
  else if n <? 32 then
    ["\"%char; "u"%char; "0"%char; "0"%char; hex_char (n / 16); hex_char (n mod 16)]
  else [c].

Definition quote_chars (s : list ascii) : list ascii :=
  dquote :: flat_map quote_char s ++ [dquote].

Fixpoint stringify_chars (v : jsval) : list ascii :=
  match v with
  | JNull => list_ascii_of_string "null"
  | JBool true => list_ascii_of_string "true"
  | JBool false => list_ascii_of_string "false"
  | JNum n => Number_toString n
  | JStr s => quote_chars (list_ascii_of_string s)
  | JArr l =>
      "["%char :: join [","%char] (map stringify_chars l) ++ ["]"%char]
  | JObj props =>
      "{"%char ::
      join [","%char]
        (map (fun p => quote_chars (list_ascii_of_string (fst p))
                       ++ ":"%char :: stringify_chars (snd p)) props)
      ++ ["}"%char]
  end.

Definition JSON_stringify (v : jsval) : string :=
  string_of_list_ascii (stringify_chars v).

(** ** [JSON.parse] *)

Definition is_ws (c : ascii) : bool :=
  let n := code c in (n =? 32) || (n =? 9) || (n =? 10) || (n =? 13).

Fixpoint skip_ws (cs : list ascii) : list ascii :=
  match cs with
  | c :: r => if is_ws c then skip_ws r else cs
  | [] => []
  end.

Definition is_digit (c : ascii) : bool := (48 <=? code c) && (code c <=? 57).

Definition digit_val (c : ascii) : Z := code c - 48.

Fixpoint span_digits (cs : list ascii) : list Z * list ascii :=
  match cs with
  | c :: r =>
      if is_digit c then let '(ds, r') := span_digits r in (digit_val c :: ds, r')
      else ([], cs)
  | [] => ([], [])
  end.

Definition hex_val (c : ascii) : option Z :=
  let n := code c in
  if (48 <=? n) && (n <=? 57) then Some (n - 48)
  else if (97 <=? n) && (n <=? 102) then Some (n - 87)
  else if (65 <=? n) && (n <=? 70) then Some (n - 55)
  else None.

Definition byte (n : Z) : ascii := ascii_of_nat (Z.to_nat n).

(** The bytes that hold one UTF-16 code unit (UTF-8; the two halves of
    a surrogate pair are held separately). *)
Definition code_unit_bytes (u : Z) : list ascii :=
  if u <? 128 then [byte u]
  else if u <? 2048 then [byte (192 + u / 64); byte (128 + u mod 64)]
  else [byte (224 + u / 4096); byte (128 + (u / 64) mod 64); byte (128 + u mod 64)].

(** The characters of a string literal after its opening quote. *)
Fixpoint parse_string_body (cs : list ascii) (acc : list ascii)
  : option (list ascii * list ascii) :=
  match cs with
  | [] => None
  | c :: r =>
      if code c =? 34 then Some (rev acc, r)
      else if code c =? 92 then
        match r with
        | e :: r' =>
            let n := code e in
            if n =? 34 then parse_string_body r' (e :: acc)
            else if n =? 92 then parse_string_body r' (e :: acc)
            else if n =? 47 then parse_string_body r' (e :: acc)
            else if n =? 98 then parse_string_body r' (byte 8 :: acc)
            else if n =? 102 then parse_string_body r' (byte 12 :: acc)
            else if n =? 110 then parse_string_body r' (byte 10 :: acc)
            else if n =? 114 then parse_string_body r' (byte 13 :: acc)
            else if n =? 116 then parse_string_body r' (byte 9 :: acc)
            else if n =? 117 then
              match r' with
              | h1 :: h2 :: h3 :: h4 :: r'' =>
                  match hex_val h1, hex_val h2, hex_val h3, hex_val h4 with
                  | Some a, Some b, Some c', Some d =>
                      parse_string_body r''
                        (rev (code_unit_bytes (((a * 16 + b) * 16 + c') * 16 + d)) ++ acc)
                  | _, _, _, _ => None
                  end
              | _ => None
              end
            else None
        | [] => None
        end
      else if code c <? 32 then None
      else parse_string_body r (c :: acc)
  end.

Definition parse_sign (cs : list ascii) : bool * list ascii :=
  match cs with
  | c :: r => if code c =? 45 then (true, r) else (false, cs)
  | [] => (false, cs)
  end.

Definition parse_int_part (cs : list ascii) : option (list Z * list ascii) :=
  match cs with
  | c :: r =>
      if code c =? 48 then Some ([0], r)
      else if is_digit c then Some (span_digits cs)
      else None
  | [] => None
  end.

Definition parse_frac_part (cs : list ascii) : option (list Z * list ascii) :=
  match cs with
  | c :: r =>
      if code c =? 46 then
        match span_digits r with
        | ([], _) => None
        | (ds, r') => Some (ds, r')
        end
      else Some ([], cs)
  | [] => Some ([], cs)
  end.

Definition parse_exp_part (cs : list ascii) : option (Z * list ascii) :=
  match cs with
  | c :: r =>
      if (code c =? 101) || (code c =? 69) then
        let '(neg, r1) :=
          match r with
          | s :: r0 =>
              if code s =? 45 then (true, r0)
              else if code s =? 43 then (false, r0)
              else (false, r)
          | [] => (false, r)
          end in
        match span_digits r1 with
        | ([], _) => None
        | (ds, r') => Some (if neg then - of_digits 0 ds else of_digits 0 ds, r')
        end
      else Some (0, cs)
  | [] => Some (0, cs)
  end.

Definition parse_number (cs : list ascii) : option (number * list ascii) :=
  let '(neg, cs1) := parse_sign cs in
  '(ip, cs2) ← parse_int_part cs1;
  '(fp, cs3) ← parse_frac_part cs2;
  '(e, cs4) ← parse_exp_part cs3;
  let m := of_digits 0 (ip ++ fp) in
  Some (make_number (if neg then - m else m) (e - Z.of_nat (length fp)), cs4).

Fixpoint expect (lit : list ascii) (cs : list ascii) : option (list ascii) :=
  match lit, cs with
  | [], _ => Some cs
  | l :: lit', c :: cs' => if Ascii.eqb l c then expect lit' cs' else None
  | _ :: _, [] => None
  end.

(** A repeated property name keeps its first position and takes the
    last value. *)
Fixpoint obj_set (k : string) (v : jsval) (l : list (string * jsval))
  : list (string * jsval) :=
  match l with
  | [] => [(k, v)]
  | (k', v') :: l' =>
      if String.eqb k' k then (k', v) :: l' else (k', v') :: obj_set k v l'
  end.

Fixpoint parse_value (fuel : nat) (cs : list ascii) : option (jsval * list ascii) :=
  match fuel with
  | O => None
  | S f =>
      match skip_ws cs with
      | [] => None
      | c :: r =>
          let n := code c in
          if n =? 110 then r' ← expect (list_ascii_of_string "ull") r; Some (JNull, r')
          else if n =? 116 then r' ← expect (list_ascii_of_string "rue") r; Some (JBool true, r')
          else if n =? 102 then r' ← expect (list_ascii_of_string "alse") r; Some (JBool false, r')
          else if n =? 34 then
            '(s, r') ← parse_string_body r []; Some (JStr (string_of_list_ascii s), r')
          else if n =? 91 then
            match skip_ws r with
            | c' :: r' =>
                if code c' =? 93 then Some (JArr [], r') else parse_elements f r []
            | [] => None
            end
          else if n =? 123 then
            match skip_ws r with
            | c' :: r' =>
                if code c' =? 125 then Some (JObj [], r') else parse_members f r []
            | [] => None
            end
          else
            '(x, r') ← parse_number (c :: r); Some (JNum x, r')
      end
  end
with parse_elements (fuel : nat) (cs : list ascii) (acc : list jsval)
  : option (jsval * list ascii) :=
  match fuel with
  | O => None
  | S f =>
      '(v, r) ← parse_value f cs;
      match skip_ws r with
      | c :: r' =>
          if code c =? 44 then parse_elements f r' (v :: acc)
          else if code c =? 93 then Some (JArr (rev (v :: acc)), r')
          else None
      | [] => None
      end
  end
with parse_members (fuel : nat) (cs : list ascii) (acc : list (string * jsval))
  : option (jsval * list ascii) :=
  match fuel with
  | O => None
  | S f =>
      match skip_ws cs with
      | q :: r0 =>
          if code q =? 34 then
            '(k, r1) ← parse_string_body r0 [];
            match skip_ws r1 with
            | c :: r2 =>
                if code c =? 58 then
                  '(v, r3) ← parse_value f r2;
                  let acc' := obj_set (string_of_list_ascii k) v acc in
                  match skip_ws r3 with
                  | c' :: r4 =>
                      if code c' =? 44 then parse_members f r4 acc'
                      else if code c' =? 125 then Some (JObj acc', r4)
                      else None
                  | [] => None
                  end
                else None
            | [] => None
            end
          else None
      | [] => None
      end
  end.

(** [JSON.parse(raw)]: one value between optional white space, or a
    [SyntaxError]. *)
Definition JSON_parse (raw : string) : completion jsval :=
  let cs := list_ascii_of_string raw in
  match parse_value (S (2 * length cs)) cs with
  | Some (v, r) =>
      match skip_ws r with
      | [] => Normal v
      | _ :: _ => Throw SyntaxError
      end
  | None => Throw SyntaxError
  end.

(** ** [window.localStorage] *)

Record Storage := mkStorage {
  items : gmap string string;
  getItem_throws : string -> bool;
  setItem_throws : string -> string -> bool
}.

Definition getItem (ls : Storage) (key : string) : completion (option string) :=
  if getItem_throws ls key then Throw DOMException
  else Normal (items ls !! key).

Definition setItem (ls : Storage) (key value : string) : completion Storage :=
  if setItem_throws ls key value then Throw DOMException
  else Normal (mkStorage (<[key := value]> (items ls))
                         (getItem_throws ls) (setItem_throws ls)).

(** [None] is the environment where [typeof window] is ['undefined']. *)
Abbreviation Window := (option Storage).

(** ** The nine state cells of [Page] *)

Inductive PreferenceKey :=
| kTheme | kFontFamily | kFontSize | kLineHeight | kLetterSpacing
| kWordSpacing | kMaxWidthCh | kParaSpacingEm | kInputText.

#[global] Instance PreferenceKey_eq_dec : EqDecision PreferenceKey.
Proof. solve_decision. Defined.

(** The order in which [Page] calls [useSafeLocalStorage]. *)
Definition hook_order : list PreferenceKey :=
  [kTheme; kFontFamily; kFontSize; kLineHeight; kLetterSpacing;
   kWordSpacing; kMaxWidthCh; kParaSpacingEm; kInputText].

Definition storageKey (k : PreferenceKey) : string :=
  match k with
  | kTheme => "readable:theme"
  | kFontFamily => "readable:font"
  | kFontSize => "readable:fontSize"
  | kLineHeight => "readable:lineHeight"
  | kLetterSpacing => "readable:letterSpacing"
  | kWordSpacing => "readable:wordSpacing"
  | kMaxWidthCh => "readable:maxWidth"
  | kParaSpacingEm => "readable:paraSpacing"
  | kInputText => "readable:text"
  end.

Definition initialValue (k : PreferenceKey) : jsval :=
  match k with
  | kTheme => JStr "light"
  | kFontFamily => JStr "system"
  | kFontSize => JNum (mkNum 18 0)
  | kLineHeight => JNum (mkNum 165 2)
  | kLetterSpacing => JNum (mkNum 0 0)
  | kWordSpacing => JNum (mkNum 0 0)
  | kMaxWidthCh => JNum (mkNum 68 0)
  | kParaSpacingEm => JNum (mkNum 75 2)
  | kInputText => JStr ""
  end.

Record Snapshot := mkSnapshot {
  theme : jsval;
  fontFamily : jsval;
  fontSize : jsval;
  lineHeight : jsval;
  letterSpacing : jsval;
  wordSpacing : jsval;
  maxWidthCh : jsval;
  paraSpacingEm : jsval;
  inputText : jsval
}.

(** The value of a cell. *)
Definition get (k : PreferenceKey) (s : Snapshot) : jsval :=
  match k with
  | kTheme => theme s
  | kFontFamily => fontFamily s
  | kFontSize => fontSize s
  | kLineHeight => lineHeight s
  | kLetterSpacing => letterSpacing s
  | kWordSpacing => wordSpacing s
  | kMaxWidthCh => maxWidthCh s
  | kParaSpacingEm => paraSpacingEm s
  | kInputText => inputText s
  end.

(** [setValue(v)] on the cell [k]: the state setter of [useState]. *)
Definition setValue (k : PreferenceKey) (v : jsval) (s : Snapshot) : Snapshot :=
  match k with
  | kTheme => mkSnapshot v (fontFamily s) (fontSize s) (lineHeight s) (letterSpacing s) (wordSpacing s) (maxWidthCh s) (paraSpacingEm s) (inputText s)
  | kFontFamily => mkSnapshot (theme s) v (fontSize s) (lineHeight s) (letterSpacing s) (wordSpacing s) (maxWidthCh s) (paraSpacingEm s) (inputText s)
  | kFontSize => mkSnapshot (theme s) (fontFamily s) v (lineHeight s) (letterSpacing s) (wordSpacing s) (maxWidthCh s) (paraSpacingEm s) (inputText s)
  | kLineHeight => mkSnapshot (theme s) (fontFamily s) (fontSize s) v (letterSpacing s) (wordSpacing s) (maxWidthCh s) (paraSpacingEm s) (inputText s)
  | kLetterSpacing => mkSnapshot (theme s) (fontFamily s) (fontSize s) (lineHeight s) v (wordSpacing s) (maxWidthCh s) (paraSpacingEm s) (inputText s)
  | kWordSpacing => mkSnapshot (theme s) (fontFamily s) (fontSize s) (lineHeight s) (letterSpacing s) v (maxWidthCh s) (paraSpacingEm s) (inputText s)
  | kMaxWidthCh => mkSnapshot (theme s) (fontFamily s) (fontSize s) (lineHeight s) (letterSpacing s) (wordSpacing s) v (paraSpacingEm s) (inputText s)
  | kParaSpacingEm => mkSnapshot (theme s) (fontFamily s) (fontSize s) (lineHeight s) (letterSpacing s) (wordSpacing s) (maxWidthCh s) v (inputText s)
  | kInputText => mkSnapshot (theme s) (fontFamily s) (fontSize s) (lineHeight s) (letterSpacing s) (wordSpacing s) (maxWidthCh s) (paraSpacingEm s) v
  end.

(** The first render: every [useState] cell holds its [initialValue]. *)
Definition initialize : Snapshot :=
  mkSnapshot (initialValue kTheme) (initialValue kFontFamily)
    (initialValue kFontSize) (initialValue kLineHeight)
    (initialValue kLetterSpacing) (initialValue kWordSpacing)
    (initialValue kMaxWidthCh) (initialValue kParaSpacingEm)
    (initialValue kInputText).

(** ** [useSafeLocalStorage] *)

(** [typeof window !== 'undefined' ? window.localStorage.getItem(key) : null] *)
Definition read_item (window : Window) (key : string) : completion (option string) :=
  match window with
  | Some ls => getItem ls key
  | None => Normal None
  end.

(** The first effect of the hook. The result is the argument of the
    [setValue] call that the effect makes, if it makes one. *)
Definition hydrate_effect (window : Window) (key : string)
  : completion (option jsval) :=
  try_catch
    (raw ← read_item window key;
     match raw with
     | Some r => v ← JSON_parse r; Normal (Some v)
     | None => Normal None
     end)
    (fun _ => Normal None).

(** The second effect of the hook:
    [window.localStorage.setItem(key, JSON.stringify(value))]. *)
Definition persist_effect (window : Window) (key : string) (value : jsval)
  : completion Window :=
  try_catch
    (match window with
     | Some ls => ls' ← setItem ls key (JSON_stringify value); Normal (Some ls')
     | None => Normal None
     end)
    (fun _ => Normal window).

Fixpoint foldM {A B} (f : B -> A -> completion B) (l : list A) (b : B)
  : completion B :=
  match l with
  | [] => Normal b
  | a :: l' => b' ← f b a; foldM f l' b'
  end.

(** ** Renders and commits *)

(** A queue of setter calls, oldest first. *)
Abbreviation updates := (list (PreferenceKey * jsval)).

(** The cells of the next render. *)
Definition flush (q : updates) (s : Snapshot) : Snapshot :=
  fold_left (fun s' u => setValue (fst u) (snd u) s') q s.

Fixpoint last_update (q : updates) (k : PreferenceKey) : option jsval :=
  match q with
  | [] => None
  | (k', v) :: q' =>
      match last_update q' k with
      | Some v' => Some v'
      | None => if decide (k' = k) then Some v else None
      end
  end.

(** Whether the dependency [value] of the persist effect of [k] differs,
    by [Object.is], between the render [s] and the next one. A cell that
    no setter touched keeps its very value. *)
Definition changed (q : updates) (s : Snapshot) (k : PreferenceKey) : bool :=
  match last_update q k with
  | Some v => negb (Object_is (get k s) v)
  | None => false
  end.

(** The commit of the render that follows the setter calls [q]: the
    persist effects whose dependency changed run in hook order. *)
Definition commit_step (q : updates) (s : Snapshot) (w : Window) (k : PreferenceKey)
  : completion Window :=
  if changed q s k
  then persist_effect w (storageKey k) (get k (flush q s))
  else Normal w.

Definition commit (q : updates) (s : Snapshot) (window : Window) : completion Window :=
  foldM (commit_step q s) hook_order window.

Definition dispatch (q : updates) (st : Snapshot * Window)
  : completion (Snapshot * Window) :=
  w' ← commit q (fst st) (snd st);
  Normal (flush q (fst st), w').

(** A setter call from an event handler, with the render and commit
    that follow. *)
Definition set (k : PreferenceKey) (v : jsval) (st : Snapshot * Window)
  : completion (Snapshot * Window) :=
  dispatch [(k, v)] st.

(** The setter call of a hydrate effect, if it made one, joins the
    queue. *)
Definition enqueue (q : updates) (k : PreferenceKey) (u : option jsval) : updates :=
  match u with
  | Some v => q ++ [(k, v)]
  | None => q
  end.

(** The effects of the first commit of [Page], hook by hook: the
    hydrate effect, then the persist effect with the value of the first
    render (the state updates of the effects are not applied before the
    next render). *)
Definition first_commit_step (qw : updates * Window) (k : PreferenceKey)
  : completion (updates * Window) :=
  u ← hydrate_effect (snd qw) (storageKey k);
  w' ← persist_effect (snd qw) (storageKey k) (initialValue k);
  Normal (enqueue (fst qw) k u, w').

Definition first_commit (window : Window) : completion (updates * Window) :=
  foldM first_commit_step hook_order ([], window).

(** Mounting [Page]: first render with the initial values, first
    commit, then the render and commit for the queued updates. *)
Definition mount (window : Window) : completion (Snapshot * Window) :=
  qw ← first_commit window;
  dispatch (fst qw) (initialize, snd qw).

(** The hydrate effects of the nine hooks alone, and the cells [s] once
    their setter calls are applied. *)
Definition hydrate_step (window : Window) (q : updates) (k : PreferenceKey)
  : completion updates :=
  u ← hydrate_effect window (storageKey k);
  Normal (enqueue q k u).

Definition hydrate (window : Window) (s : Snapshot) : completion Snapshot :=
  q ← foldM (hydrate_step window) hook_order [];
  Normal (flush q s).

(** ** Presets *)

Inductive Preset := Default | Reader | Dyslexia_friendly | Large_print.


Definition dec (m : Z) (sc : nat) : jsval := JNum (mkNum m sc).

(** The body of [presets[p]]: eight setter calls. *)
Definition presets (p : Preset) : updates :=
  match p with
  | Default =>
      [(kFontFamily, JStr "system"); (kFontSize, dec 18 0);
       (kLineHeight, dec 165 2); (kLetterSpacing, dec 0 0);
       (kWordSpacing, dec 0 0); (kMaxWidthCh, dec 68 0);
       (kParaSpacingEm, dec 75 2); (kTheme, JStr "light")]
  | Reader =>
      [(kFontFamily, JStr "system"); (kFontSize, dec 19 0);
       (kLineHeight, dec 17 1); (kLetterSpacing, dec 5 3);
       (kWordSpacing, dec 1 0); (kMaxWidthCh, dec 65 0);
       (kParaSpacingEm, dec 9 1); (kTheme, JStr "light")]
  | Dyslexia_friendly =>
      [(kFontFamily, JStr "atkinson"); (kFontSize, dec 20 0);
       (kLineHeight, dec 18 1); (kLetterSpacing, dec 2 2);
       (kWordSpacing, dec 2 0); (kMaxWidthCh, dec 60 0);
       (kParaSpacingEm, dec 1 0); (kTheme, JStr "light")]
  | Large_print =>
      [(kFontFamily, JStr "system"); (kFontSize, dec 22 0);
       (kLineHeight, dec 19 1); (kLetterSpacing, dec 1 2);
       (kWordSpacing, dec 1 0); (kMaxWidthCh, dec 58 0);
       (kParaSpacingEm, dec 11 1); (kTheme, JStr "high-contrast")]
  end.

(** The click handler of a preset button, [presets[name]()] with
    [name : Preset], with the render and commit that follow. *)
Definition apply (p : Preset) (st : Snapshot * Window)
  : completion (Snapshot * Window) :=
  dispatch (presets p) st.




(** ** The two projection effects of [Page] *)

Record Document := mkDocument {
  attributes : gmap string string;
  style : gmap string string
}.

Definition setAttribute (name value : string) (d : Document) : Document :=
  mkDocument (<[name := value]> (attributes d)) (style d).

(** [style.setProperty(name, value)]: the empty string removes the
    declaration. Every other value is taken as a valid value of a custom
    property. *)
Definition setProperty (name value : string) (d : Document) : Document :=
  if String.eqb value "" then mkDocument (attributes d) (delete name (style d))
  else mkDocument (attributes d) (<[name := value]> (style d)).

Definition theme_effect (s : Snapshot) (d : Document) : completion Document :=
  t ← ToString (theme s);
  Normal (setAttribute "data-theme" t d).

Definition style_effect (s : Snapshot) (d : Document) : completion Document :=
  let d := setProperty "--reader-font"
             (if strict_eq_str (fontFamily s) "atkinson"
              then "var(--font-atkinson), var(--font-sans)"
              else "var(--font-sans)") d in
  x ← ToString (fontSize s);
  let d := setProperty "--reader-font-size" (x +:+ "px") d in
  x ← ToString (lineHeight s);
  let d := setProperty "--reader-line-height" x d in
  x ← ToString (letterSpacing s);
  let d := setProperty "--reader-letter-spacing" (x +:+ "em") d in
  x ← ToString (wordSpacing s);
  let d := setProperty "--reader-word-spacing" (x +:+ "px") d in
  x ← ToString (maxWidthCh s);
  let d := setProperty "--reader-max-width" (x +:+ "ch") d in
  x ← ToString (paraSpacingEm s);
  Normal (setProperty "--reader-paragraph-spacing" (x +:+ "em") d).

(** Both effects, in the order [Page] declares them. *)
Definition project (s : Snapshot) (d : Document) : completion Document :=
  d' ← theme_effect s d; style_effect s d'.

(** ** Declared types and ranges *)

(** The type arguments of the nine [useSafeLocalStorage] calls. *)
Definition has_type (k : PreferenceKey) (v : jsval) : bool :=
  match k, v with
  | kTheme, JStr t =>
      String.eqb t "light" || String.eqb t "dark" || String.eqb t "high-contrast"
  | kFontFamily, JStr f => String.eqb f "system" || String.eqb f "atkinson"
  | kInputText, JStr _ => true
  | (kFontSize | kLineHeight | kLetterSpacing | kWordSpacing
     | kMaxWidthCh | kParaSpacingEm), JNum _ => true
  | _, _ => false
  end.

Definition well_typed (s : Snapshot) : bool :=
  forallb (fun k => has_type k (get k s)) hook_order.

(** The [min] and [max] attributes of the range inputs. *)
Definition range (k : PreferenceKey) : option (number * number) :=
  match k with
  | kFontSize => Some (mkNum 14 0, mkNum 26 0)
  | kLineHeight => Some (mkNum 12 1, mkNum 2 0)
  | kLetterSpacing => Some (mkNum (-2) 2, mkNum 1 1)
  | kWordSpacing => Some (mkNum 0 0, mkNum 6 0)
  | kMaxWidthCh => Some (mkNum 50 0, mkNum 85 0)
  | kParaSpacingEm => Some (mkNum 4 1, mkNum 14 1)
  | kTheme | kFontFamily | kInputText => None
  end.

Definition in_domain (k : PreferenceKey) (v : jsval) : bool :=
  match range k, v with
  | Some (lo, hi), JNum x => Num_leb lo x && Num_leb x hi
  | Some _, _ => false
  | None, _ => has_type k v
  end.

(** The clamping that the specification ascribes to [set] and
    [hydrate]: a number below the range gives the lower bound, one above
    gives the upper bound. No function of the program computes it; it is
    defined here to compare the program with. *)
Definition clamp (k : PreferenceKey) (v : jsval) : jsval :=
  match range k, v with
  | Some (lo, hi), JNum x =>
      JNum (if Num_ltb x lo then lo else if Num_ltb hi x then hi else x)
  | _, _ => v
  end.

(** ** Notions used in the statements below *)

(** A decimal digit. *)
Definition is_dec (d : Z) : Prop := 0 ≤ d ≤ 9.

(** A text that does not go on with a digit. *)
Definition no_digit_head (cs : list ascii) : Prop :=
  match cs with
  | [] => True
  | c :: _ => is_digit c = false
  end.

(** The parts of a number literal: sign, integer digits, fraction
    digits and exponent. *)
Definition sign_chars (neg : bool) : list ascii :=
  if neg then ["-"%char] else [].

Definition frac_chars (fp : list Z) : list ascii :=
  match fp with
  | [] => []
  | _ :: _ => "."%char :: chars fp
  end.

Definition exp_chars (e : option Z) : list ascii :=
  match e with
  | None => []
  | Some e =>
      "e"%char :: (if e <? 0 then "-"%char else "+"%char) :: chars (digits (Z.abs e))
  end.

Definition layout (neg : bool) (ip fp : list Z) (e : option Z) : list ascii :=
  sign_chars neg ++ chars ip ++ frac_chars fp ++ exp_chars e.

(** An integer part as the grammar admits it: a lone zero, or digits
    that start with a non-zero one. *)
Definition int_ok (ip : list Z) : Prop :=
  Forall is_dec ip ∧ (ip = [0] ∨ ∃ d l, ip = d :: l ∧ d ≠ 0).

(** The values that [JSON.stringify] and [JSON.parse] carry unchanged:
    strings, booleans, [null] and numbers in canonical form. *)
Definition primitive (v : jsval) : bool :=
  match v with
  | JNull | JBool _ | JStr _ => true
  | JNum n => canonical n
  | JArr _ | JObj _ => false
  end.

(** A storage without faults that holds the given items. *)
Definition storage_of (l : list (string * string)) : Storage :=
  mkStorage (list_to_map l) (λ _, false) (λ _ _, false).

(** A storage whose quota is exhausted: every write throws. *)
Definition full_storage : Storage :=
  mkStorage ∅ (λ _, false) (λ _ _, true).

(** The custom properties that [Page] sets on the root element. *)
Definition reader_variables : list string :=
  ["--reader-font"; "--reader-font-size"; "--reader-line-height";
   "--reader-letter-spacing"; "--reader-word-spacing"; "--reader-max-width";
   "--reader-paragraph-spacing"].

(** ** The rendered page *)

(** A sequence of event handlers, each a batch of setter calls with the
    render and commit that follow it. *)
Definition session (qs : list updates) (st : Snapshot * Window)
  : completion (Snapshot * Window) :=
  foldM (fun st' q => dispatch q st') qs st.

(** [typeof v === 'object'] for a value other than [null]. *)
Definition is_object (v : jsval) : bool :=
  match v with
  | JArr _ | JObj _ => true
  | JNull | JBool _ | JNum _ | JStr _ => false
  end.

(** [ToBoolean(v)], as [||] applies it. *)
Definition ToBoolean (v : jsval) : bool :=
  match v with
  | JNull => false
  | JBool b => b
  | JNum n => negb (mant n =? 0)
  | JStr s => negb (String.eqb s "")
  | JArr _ | JObj _ => true
  end.

Definition newline : ascii := ascii_of_nat 10.

Definition lf : string := String newline "".

(** The built-in text of the preview. *)
Definition sample : string :=
  "Readable makes long-form text easier to consume." +:+ lf +:+ lf +:+
  "Use the controls to adjust font size, line-height, letter spacing, and contrast. Your preferences persist automatically." +:+ lf +:+ lf +:+
  "Principles:" +:+ lf +:+
  "- Optimal line length: ~60?75 characters" +:+ lf +:+
  "- Generous line-height improves scanability" +:+ lf +:+
  "- Adequate contrast reduces eye strain".

(** [text.split('\n')] on a string. *)
Fixpoint split_lines (s : string) : list string :=
  match s with
  | EmptyString => [EmptyString]
  | String c r =>
      if Ascii.eqb c newline then EmptyString :: split_lines r
      else match split_lines r with
           | h :: t => String c h :: t
           | [] => [String c EmptyString]
           end
  end.

(** The paragraphs of the preview, each with its [key]:
    [(inputText || sample).split('\n').map((para, idx) => ...)]. A
    truthy value that is no string has no callable [split], and the call
    throws. *)
Definition preview (s : Snapshot) : completion (list (nat * string)) :=
  match (if ToBoolean (inputText s) then inputText s else JStr sample) with
  | JStr t => Normal (imap (fun idx para => (idx, para)) (split_lines t))
  | _ => Throw TypeError
  end.

(** The [onChange] handler of the text area. *)
Definition onChange_paste (value : string) (st : Snapshot * Window)
  : completion (Snapshot * Window) :=
  set kInputText (JStr value) st.

(** The theme buttons of the header, each with its [aria-pressed]. *)
Definition themes : list string := ["light"; "dark"; "high-contrast"].

Definition theme_buttons (s : Snapshot) : list (string * bool) :=
  map (fun t => (t, strict_eq_str (theme s) t)) themes.

(** The [onClick] handler of the theme button [t]. *)
Definition click_theme (t : string) (st : Snapshot * Window)
  : completion (Snapshot * Window) :=
  set kTheme (JStr t) st.

(** Every record of the page holds the serialised value of its cell. *)
Definition synced (s : Snapshot) (ls : Storage) : Prop :=
  forall k, items ls !! storageKey k = Some (JSON_stringify (get k s)).

(** No write to a record of the page throws. *)
Definition writable (ls : Storage) : Prop :=
  forall k v, setItem_throws ls (storageKey k) v = false.

(** No read of a record of the page throws. *)
Definition readable (ls : Storage) : Prop :=
  forall k, getItem_throws ls (storageKey k) = false.

(** ** Records and updates of the declared types

    [mount], [dispatch] and [set] describe the commits of the page and
    take the render before each commit to complete. [Page] renders
    every snapshot whose cells have their declared types; on other
    cells its JSX can throw ([toFixed] on a value that is no number,
    [split] on a truthy value that is no string, an object as a child),
    and the page is then unmounted before the commit. The statements
    about a mounted page after hydration or after a setter call
    therefore ask for values of the declared types. *)

(** Every value that the hydrate effects restore from [w] has the
    declared type of its key. *)
Definition typed_records (w : Window) : bool :=
  forallb (fun k => match hydrate_effect w (storageKey k) with
                    | Normal (Some v) => has_type k v
                    | _ => true
                    end) hook_order.

(** A number on which the decimal model and the double precision
    numbers of the language agree: at most fifteen significant digits,
    well inside the range of the doubles. *)
Definition js_exact (n : number) : bool :=
  canonical n && (Z.abs (mant n) <? 10 ^ 15) && (scale n <=? 300)%nat.

Definition exact_value (v : jsval) : bool :=
  match v with
  | JNum n => js_exact n
  | JNull | JBool _ | JStr _ => true
  | JArr _ | JObj _ => false
  end.

(** Every value that the hydrate effects restore from [w] has the
    declared type of its key and, if it is a number, is read exactly. *)
Definition sound_records (w : Window) : bool :=
  forallb (fun k => match hydrate_effect w (storageKey k) with
                    | Normal (Some v) => has_type k v && exact_value v
                    | _ => true
                    end) hook_order.

(** Every setter call of the batch passes a value of the declared type
    of its key: a string or a number, in canonical form. *)
Definition typed_updates (q : updates) : bool :=
  forallb (fun u => has_type (fst u) (snd u) && primitive (snd u)) q.


(** * Properties *)

(** ** Cells *)

Lemma get_setValue (k k' : PreferenceKey) (v : jsval) (s : Snapshot) :
  get k' (setValue k v s) = if decide (k = k') then v else get k' s.
Proof. destruct k, k'; reflexivity. Qed.

Lemma get_setValue_eq (k : PreferenceKey) (v : jsval) (s : Snapshot) :
  get k (setValue k v s) = v.
Proof. rewrite get_setValue. by case_decide. Qed.

Lemma get_setValue_ne (k k' : PreferenceKey) (v : jsval) (s : Snapshot) :
  k ≠ k' → get k' (setValue k v s) = get k' s.
Proof. intros. rewrite get_setValue. by case_decide. Qed.

Lemma last_update_snoc (q : updates) (k k' : PreferenceKey) (v : jsval) :
  last_update (q ++ [(k, v)]) k' =
  if decide (k = k') then Some v else last_update q k'.
Proof.
  induction q as [|[k0 v0] q IH]; simpl.
  - reflexivity.
  - rewrite IH. case_decide; [reflexivity|]. reflexivity.
Qed.

Lemma get_flush (q : updates) (s : Snapshot) (k : PreferenceKey) :
  get k (flush q s) = default (get k s) (last_update q k).
Proof.
  unfold flush. revert s.
  induction q as [|[k0 v0] q IH]; intros s; simpl.
  - reflexivity.
  - rewrite IH. destruct (last_update q k); simpl; [reflexivity|].
    rewrite get_setValue. by case_decide.
Qed.

Lemma storageKey_inj (k k' : PreferenceKey) :
  storageKey k = storageKey k' → k = k'.
Proof. destruct k, k'; simpl; intros H; first [reflexivity | discriminate H]. Qed.

Lemma NoDup_hook_order : NoDup hook_order.
Proof. compute_done. Qed.

Lemma elem_of_hook_order (k : PreferenceKey) : k ∈ hook_order.
Proof. destruct k; compute_done. Qed.

(** ** The two effects of the hook never throw *)

Lemma hydrate_effect_total (w : Window) (key : string) :
  ∃ u, hydrate_effect w key = Normal u.
Proof.
  unfold hydrate_effect.
  destruct (read_item w key) as [[raw|]|e]; simpl; eauto.
  destruct (JSON_parse raw); simpl; eauto.
Qed.

Lemma hydrate_effect_parsed (w : Window) (key raw : string) (v : jsval) :
  read_item w key = Normal (Some raw) → JSON_parse raw = Normal v →
  hydrate_effect w key = Normal (Some v).
Proof. intros Hr Hp. unfold hydrate_effect. rewrite Hr. simpl. by rewrite Hp. Qed.

Lemma hydrate_effect_absent (w : Window) (key : string) :
  read_item w key = Normal None → hydrate_effect w key = Normal None.
Proof. intros Hr. unfold hydrate_effect. by rewrite Hr. Qed.

Lemma hydrate_effect_unreadable (w : Window) (key : string) (e : exn) :
  read_item w key = Throw e → hydrate_effect w key = Normal None.
Proof. intros Hr. unfold hydrate_effect. by rewrite Hr. Qed.

Lemma hydrate_effect_unparseable (w : Window) (key raw : string) (e : exn) :
  read_item w key = Normal (Some raw) → JSON_parse raw = Throw e →
  hydrate_effect w key = Normal None.
Proof. intros Hr Hp. unfold hydrate_effect. rewrite Hr. simpl. by rewrite Hp. Qed.

Lemma persist_effect_None (key : string) (v : jsval) :
  persist_effect None key v = Normal None.
Proof. reflexivity. Qed.

Lemma persist_effect_Some (ls : Storage) (key : string) (v : jsval) :
  ∃ ls', persist_effect (Some ls) key v = Normal (Some ls')
         ∧ getItem_throws ls' = getItem_throws ls
         ∧ setItem_throws ls' = setItem_throws ls
         ∧ items ls' = if setItem_throws ls key (JSON_stringify v)
                       then items ls
                       else <[key := JSON_stringify v]> (items ls).
Proof.
  unfold persist_effect, setItem.
  destruct (setItem_throws ls key (JSON_stringify v)); simpl; eauto.
Qed.

Lemma persist_effect_total (w : Window) (key : string) (v : jsval) :
  ∃ w', persist_effect w key v = Normal w'.
Proof.
  destruct w as [ls|]; [|by eauto].
  destruct (persist_effect_Some ls key v) as (ls' & -> & _). eauto.
Qed.

(** What a later read sees of a storage that kept its faults. *)
Lemma read_item_Some (ls : Storage) (key : string) :
  read_item (Some ls) key =
  if getItem_throws ls key then Throw DOMException else Normal (items ls !! key).
Proof. reflexivity. Qed.

(** ** Commits *)

Lemma foldM_cons {A B} (f : B → A → completion B) (a : A) (l : list A) (b : B) :
  foldM f (a :: l) b = f b a ≫= foldM f l.
Proof. reflexivity. Qed.

Lemma commit_step_eq (q : updates) (s : Snapshot) (w : Window) (k : PreferenceKey) :
  commit_step q s w k =
  if changed q s k then persist_effect w (storageKey k) (get k (flush q s))
  else Normal w.
Proof. reflexivity. Qed.

Lemma commit_None (q : updates) (s : Snapshot) : commit q s None = Normal None.
Proof.
  unfold commit. generalize hook_order as l.
  induction l as [|k l IH]; [reflexivity|].
  rewrite foldM_cons, commit_step_eq. destruct (changed q s k); exact IH.
Qed.

(** A commit keeps the faults of the storage; the item of a hook whose
    dependency changed, and whose write does not throw, becomes the
    serialised value of the new render; every other item is kept. *)
Lemma commit_Some_gen (q : updates) (s : Snapshot) (l : list PreferenceKey) (ls : Storage) :
  NoDup l →
  ∃ ls',
    foldM (commit_step q s) l (Some ls) = Normal (Some ls')
    ∧ getItem_throws ls' = getItem_throws ls
    ∧ setItem_throws ls' = setItem_throws ls
    ∧ ∀ k, items ls' !! storageKey k =
           if bool_decide (k ∈ l) && changed q s k
              && negb (setItem_throws ls (storageKey k) (JSON_stringify (get k (flush q s))))
           then Some (JSON_stringify (get k (flush q s)))
           else items ls !! storageKey k.
Proof.
  revert ls. induction l as [|k0 l IH]; intros ls Hnd.
  - exists ls. simpl. repeat split; try reflexivity.
  - apply NoDup_cons in Hnd as [Hk0 Hnd]. rewrite foldM_cons, commit_step_eq.
    destruct (changed q s k0) eqn:Hch; simpl.
    + destruct (persist_effect_Some ls (storageKey k0) (get k0 (flush q s)))
        as (ls1 & -> & Hg & Hs & Hi). simpl.
      destruct (IH ls1 Hnd) as (ls' & -> & Hg' & Hs' & Hi').
      exists ls'. split; [reflexivity|]. split; [congruence|]. split; [congruence|].
      intros k. rewrite Hi', Hs, Hi.
      destruct (decide (k = k0)) as [->|Hne].
      * rewrite (bool_decide_eq_false_2 (k0 ∈ l)) by done.
        rewrite (bool_decide_eq_true_2 (k0 ∈ k0 :: l)) by apply list_elem_of_here.
        rewrite Hch. simpl.
        destruct (setItem_throws ls _ _); simpl; [reflexivity|].
        by rewrite lookup_insert_eq.
      * assert (Hl : bool_decide (k ∈ k0 :: l) = bool_decide (k ∈ l))
          by (apply bool_decide_ext; rewrite elem_of_cons; split; [intros [?|?]; [congruence|assumption] | by right]).
        rewrite Hl.
        destruct (bool_decide (k ∈ l) && changed q s k && _); [reflexivity|].
        destruct (setItem_throws ls (storageKey k0) _); [reflexivity|].
        rewrite lookup_insert_ne; [reflexivity|].
        intros Heq. apply storageKey_inj in Heq. congruence.
    + destruct (IH ls Hnd) as (ls' & -> & Hg' & Hs' & Hi').
      exists ls'. repeat split; try done.
      intros k. rewrite Hi'.
      destruct (decide (k = k0)) as [->|Hne].
      * rewrite (bool_decide_eq_false_2 (k0 ∈ l)) by done.
        rewrite Hch. simpl. by rewrite andb_false_r.
      * assert (Hl : bool_decide (k ∈ k0 :: l) = bool_decide (k ∈ l))
          by (apply bool_decide_ext; rewrite elem_of_cons; split; [intros [?|?]; [congruence|assumption] | by right]).
        by rewrite Hl.
Qed.

Lemma commit_Some (q : updates) (s : Snapshot) (ls : Storage) :
  ∃ ls',
    commit q s (Some ls) = Normal (Some ls')
    ∧ getItem_throws ls' = getItem_throws ls
    ∧ setItem_throws ls' = setItem_throws ls
    ∧ ∀ k, items ls' !! storageKey k =
           if changed q s k
              && negb (setItem_throws ls (storageKey k) (JSON_stringify (get k (flush q s))))
           then Some (JSON_stringify (get k (flush q s)))
           else items ls !! storageKey k.
Proof.
  destruct (commit_Some_gen q s hook_order ls NoDup_hook_order)
    as (ls' & H & Hg & Hs & Hi).
  exists ls'. repeat split; try done.
  intros k. rewrite Hi.
  by rewrite (bool_decide_eq_true_2 _ (elem_of_hook_order k)).
Qed.

Lemma commit_total (q : updates) (s : Snapshot) (w : Window) :
  ∃ w', commit q s w = Normal w'.
Proof.
  destruct w as [ls|].
  - destruct (commit_Some q s ls) as (ls' & -> & _). eauto.
  - rewrite commit_None. eauto.
Qed.

Lemma dispatch_total (q : updates) (s : Snapshot) (w : Window) :
  ∃ w', dispatch q (s, w) = Normal (flush q s, w').
Proof.
  unfold dispatch. simpl.
  destruct (commit_total q s w) as (w' & ->). simpl. eauto.
Qed.

(** ** Hydration *)

Lemma last_update_enqueue (q : updates) (k k' : PreferenceKey) (u : option jsval) :
  last_update (enqueue q k u) k' =
  match u with
  | Some v => if decide (k = k') then Some v else last_update q k'
  | None => last_update q k'
  end.
Proof. destruct u; simpl; [apply last_update_snoc | reflexivity]. Qed.

Lemma hydrate_step_eq (w : Window) (q : updates) (k : PreferenceKey) :
  hydrate_step w q k =
  hydrate_effect w (storageKey k) ≫= λ u, Normal (enqueue q k u).
Proof. reflexivity. Qed.

Lemma first_commit_step_eq (q : updates) (w : Window) (k : PreferenceKey) :
  first_commit_step (q, w) k =
  hydrate_effect w (storageKey k) ≫= λ u,
  persist_effect w (storageKey k) (initialValue k) ≫= λ w',
  Normal (enqueue q k u, w').
Proof. reflexivity. Qed.

(** The queue that the hydrate effects of the hooks [l] build: the last
    update of a cell is what its own effect passed to [setValue]. *)
Lemma hydrate_queue (w : Window) (l : list PreferenceKey) (q0 : updates) :
  NoDup l →
  ∃ q, foldM (hydrate_step w) l q0 = Normal q
       ∧ ∀ k, last_update q k =
              match (if bool_decide (k ∈ l)
                     then hydrate_effect w (storageKey k) else Normal None) with
              | Normal (Some v) => Some v
              | _ => last_update q0 k
              end.
Proof.
  revert q0. induction l as [|k0 l IH]; intros q0 Hnd.
  - exists q0. split; [reflexivity|]. intros k. reflexivity.
  - apply NoDup_cons in Hnd as [Hk0 Hnd]. rewrite foldM_cons, hydrate_step_eq.
    destruct (hydrate_effect_total w (storageKey k0)) as [u Hu]. rewrite Hu. simpl.
    destruct (IH (enqueue q0 k0 u) Hnd) as (q & -> & Hq).
    exists q. split; [reflexivity|]. intros k. rewrite Hq, last_update_enqueue.
    destruct (decide (k = k0)) as [->|Hne].
    + rewrite (bool_decide_eq_false_2 (k0 ∈ l)) by done.
      rewrite (bool_decide_eq_true_2 (k0 ∈ k0 :: l)) by apply list_elem_of_here.
      rewrite Hu. destruct u; [by case_decide | reflexivity].
    + assert (Hl : bool_decide (k ∈ k0 :: l) = bool_decide (k ∈ l))
        by (apply bool_decide_ext; rewrite elem_of_cons;
            split; [intros [?|?]; [congruence|assumption] | by right]).
      rewrite Hl.
      assert (Hu' : match u with
                    | Some v => if decide (k0 = k) then Some v else last_update q0 k
                    | None => last_update q0 k
                    end = last_update q0 k).
      { destruct u; [|reflexivity]. destruct (decide (k0 = k)); congruence. }
      rewrite Hu'. reflexivity.
Qed.

(** [hydrate] never throws, and decides each cell from its own record. *)
Lemma hydrate_cell (w : Window) (s : Snapshot) :
  ∃ s', hydrate w s = Normal s'
        ∧ ∀ k, get k s' = match hydrate_effect w (storageKey k) with
                          | Normal (Some v) => v
                          | _ => get k s
                          end.
Proof.
  unfold hydrate.
  destruct (hydrate_queue w hook_order [] NoDup_hook_order) as (q & -> & Hq).
  exists (flush q s). split; [reflexivity|]. intros k.
  rewrite get_flush, Hq.
  rewrite (bool_decide_eq_true_2 _ (elem_of_hook_order k)).
  by destruct (hydrate_effect w (storageKey k)) as [[v|]|e].
Qed.

(** The first commit reads each record before any write to it, so it
    queues the updates of the hydrate effects run on the storage as it
    was found. *)
Lemma first_commit_queue (ls0 ls : Storage) (l : list PreferenceKey) (q0 : updates) :
  NoDup l →
  getItem_throws ls = getItem_throws ls0 →
  (∀ k, k ∈ l → items ls !! storageKey k = items ls0 !! storageKey k) →
  ∃ q ls', foldM first_commit_step l (q0, Some ls) = Normal (q, Some ls')
           ∧ foldM (hydrate_step (Some ls0)) l q0 = Normal q
           ∧ getItem_throws ls' = getItem_throws ls
           ∧ setItem_throws ls' = setItem_throws ls.
Proof.
  revert ls q0. induction l as [|k0 l IH]; intros ls q0 Hnd Hg Hi.
  - exists q0, ls. repeat split; reflexivity.
  - apply NoDup_cons in Hnd as [Hk0 Hnd]. rewrite !foldM_cons, hydrate_step_eq, first_commit_step_eq.
    assert (Hread : hydrate_effect (Some ls) (storageKey k0)
                    = hydrate_effect (Some ls0) (storageKey k0)).
    { unfold hydrate_effect. rewrite !read_item_Some, Hg, Hi; [reflexivity|].
      apply list_elem_of_here. }
    rewrite Hread.
    destruct (hydrate_effect_total (Some ls0) (storageKey k0)) as [u ->]. simpl.
    destruct (persist_effect_Some ls (storageKey k0) (initialValue k0))
      as (ls1 & -> & Hg1 & Hs1 & Hi1). simpl.
    destruct (IH ls1 (enqueue q0 k0 u) Hnd) as (q & ls' & H1 & H2 & Hg' & Hs').
    + congruence.
    + intros k Hk. rewrite Hi1.
      destruct (setItem_throws ls _ _).
      * apply Hi. by right.
      * rewrite lookup_insert_ne; [apply Hi; by right|].
        intros Heq. apply storageKey_inj in Heq. congruence.
    + exists q, ls'. split; [exact H1|]. split; [exact H2|]. split; congruence.
Qed.

Lemma first_commit_None : first_commit None = Normal ([], None).
Proof. reflexivity. Qed.

(** The cells after mounting are the initial cells hydrated from the
    storage as it was found. *)
Lemma mount_hydrate (w : Window) :
  ∃ s' w', mount w = Normal (s', w') ∧ hydrate w initialize = Normal s'.
Proof.
  unfold mount, hydrate. destruct w as [ls|].
  - destruct (first_commit_queue ls ls hook_order [] NoDup_hook_order)
      as (q & ls' & Hfc & Hq & _); [done..|].
    unfold first_commit. rewrite Hfc, Hq. simpl.
    destruct (dispatch_total q initialize (Some ls')) as (w' & ->). eauto.
  - rewrite first_commit_None. simpl.
    destruct (dispatch_total [] initialize None) as (w' & ->). eauto.
Qed.

(** ** Decimal digits *)

Lemma of_digits_app (a : Z) (l1 l2 : list Z) :
  of_digits a (l1 ++ l2) = of_digits (of_digits a l1) l2.
Proof. revert a. induction l1 as [|d l1 IH]; intros a; simpl; [reflexivity|apply IH]. Qed.

Lemma of_digits_snoc (a : Z) (l : list Z) (d : Z) :
  of_digits a (l ++ [d]) = 10 * of_digits a l + d.
Proof. by rewrite of_digits_app. Qed.

Lemma of_digits_acc (a : Z) (l : list Z) :
  of_digits a l = a * 10 ^ Z.of_nat (length l) + of_digits 0 l.
Proof.
  revert a. induction l as [|d l IH]; intros a.
  - simpl. lia.
  - cbn [of_digits length]. rewrite (IH (10 * a + d)), (IH (10 * 0 + d)).
    rewrite Nat2Z.inj_succ, Z.pow_succ_r by lia. lia.
Qed.

Lemma of_digits_zeros (a : Z) (j : nat) :
  of_digits a (repeat 0 j) = a * 10 ^ Z.of_nat j.
Proof.
  rewrite of_digits_acc, repeat_length.
  assert (H : of_digits 0 (repeat 0 j) = 0).
  { induction j as [|j IH]; simpl; [reflexivity|exact IH]. }
  lia.
Qed.

Lemma of_digits_nonneg (a : Z) (l : list Z) :
  0 ≤ a → Forall is_dec l → 0 ≤ of_digits a l.
Proof.
  intros Ha Hl. revert a Ha. induction Hl as [|d l Hd Hl IH]; intros a Ha; simpl.
  - exact Ha.
  - apply IH. unfold is_dec in Hd. lia.
Qed.

Lemma digits_aux_acc (fuel : nat) (n : Z) (acc : list Z) :
  digits_aux fuel n acc = digits_aux fuel n [] ++ acc.
Proof.
  revert n acc. induction fuel as [|f IH]; intros n acc; simpl; [reflexivity|].
  destruct (n <? 10); [reflexivity|].
  rewrite (IH (n / 10) (n mod 10 :: acc)), (IH (n / 10) [n mod 10]).
  by rewrite <- app_assoc.
Qed.

Lemma digits_aux_S (f : nat) (n : Z) :
  digits_aux (S f) n [] =
  if n <? 10 then [n mod 10] else digits_aux f (n / 10) [] ++ [n mod 10].
Proof. simpl. destruct (n <? 10); [reflexivity|apply digits_aux_acc]. Qed.

Lemma digits_aux_spec (f : nat) (n : Z) :
  0 ≤ n < 2 ^ Z.of_nat (S f) →
  of_digits 0 (digits_aux (S f) n []) = n
  ∧ Forall is_dec (digits_aux (S f) n [])
  ∧ (0 < n → ∃ d l, digits_aux (S f) n [] = d :: l ∧ d ≠ 0)
  ∧ (∃ l, digits_aux (S f) n [] = l ++ [n mod 10]).
Proof.
  revert n. induction f as [|f IH]; intros n Hn;
    rewrite digits_aux_S; destruct (Z.ltb_spec n 10) as [Hlt|Hge].
  - rewrite Z.mod_small by lia. simpl. split_and!.
    + lia.
    + repeat constructor; unfold is_dec; lia.
    + intros Hpos. exists n, []. split; [reflexivity|lia].
    + by exists [].
  - change (2 ^ Z.of_nat 1) with 2 in Hn. lia.
  - rewrite Z.mod_small by lia. simpl. split_and!.
    + lia.
    + repeat constructor; unfold is_dec; lia.
    + intros Hpos. exists n, []. split; [reflexivity|lia].
    + by exists [].
  - assert (Hq : 0 ≤ n / 10 < 2 ^ Z.of_nat (S f)).
    { rewrite (Nat2Z.inj_succ (S f)), Z.pow_succ_r in Hn by lia.
      split; [apply Z.div_pos; lia|].
      apply Z.div_lt_upper_bound; lia. }
    destruct (IH _ Hq) as (Hv & Hd & Hh & _).
    assert (Hm := Z.mod_pos_bound n 10 ltac:(lia)).
    split_and!.
    + rewrite of_digits_snoc, Hv. rewrite (Z.div_mod n 10) at 3 by lia. lia.
    + apply Forall_app. split; [exact Hd|].
      repeat constructor; unfold is_dec; lia.
    + intros _. destruct Hh as (d & l & Hl & Hd0).
      { apply Z.div_str_pos. lia. }
      exists d, (l ++ [n mod 10]). rewrite Hl. split; [reflexivity|exact Hd0].
    + by eexists.
Qed.

Lemma digits_fuel (n : Z) : 0 ≤ n → 0 ≤ n < 2 ^ Z.of_nat (S (Z.to_nat (Z.log2 n))).
Proof.
  intros Hn. split; [exact Hn|].
  rewrite Nat2Z.inj_succ, Z2Nat.id by apply Z.log2_nonneg.
  destruct (Z.eq_dec n 0) as [->|Hne]; [reflexivity|].
  apply Z.log2_spec. lia.
Qed.

Lemma of_digits_digits (n : Z) : 0 ≤ n → of_digits 0 (digits n) = n.
Proof. intros Hn. apply digits_aux_spec, digits_fuel, Hn. Qed.

Lemma digits_dec (n : Z) : 0 ≤ n → Forall is_dec (digits n).
Proof. intros Hn. apply digits_aux_spec, digits_fuel, Hn. Qed.

Lemma digits_head (n : Z) : 0 < n → ∃ d l, digits n = d :: l ∧ d ≠ 0.
Proof.
  intros Hn. destruct (digits_aux_spec _ n (digits_fuel n ltac:(lia))) as (_ & _ & H & _).
  by apply H.
Qed.

Lemma digits_last (n : Z) : 0 ≤ n → ∃ l, digits n = l ++ [n mod 10].
Proof. intros Hn. apply digits_aux_spec, digits_fuel, Hn. Qed.

(** ** Characters of digits *)

Lemma code_digit_char (d : Z) : is_dec d → code (digit_char d) = 48 + d.
Proof.
  intros Hd. unfold is_dec in Hd. unfold code, digit_char.
  rewrite nat_ascii_embedding by lia. lia.
Qed.

Lemma is_digit_digit_char (d : Z) : is_dec d → is_digit (digit_char d) = true.
Proof.
  intros Hd. unfold is_digit. rewrite code_digit_char by done.
  unfold is_dec in Hd. apply andb_true_intro. split; apply Z.leb_le; lia.
Qed.

Lemma digit_val_digit_char (d : Z) : is_dec d → digit_val (digit_char d) = d.
Proof. intros Hd. unfold digit_val. rewrite code_digit_char by done. lia. Qed.

Lemma span_digits_chars (ds : list Z) (rest : list ascii) :
  Forall is_dec ds → no_digit_head rest →
  span_digits (chars ds ++ rest) = (ds, rest).
Proof.
  intros Hds Hrest. induction Hds as [|d ds Hd Hds IH].
  - destruct rest as [|c r]; [reflexivity|]. simpl in *. by rewrite Hrest.
  - change (chars (d :: ds) ++ rest) with (digit_char d :: (chars ds ++ rest)).
    cbn [span_digits]. rewrite is_digit_digit_char by done. rewrite IH.
    by rewrite digit_val_digit_char.
Qed.

Lemma chars_app (l1 l2 : list Z) : chars (l1 ++ l2) = chars l1 ++ chars l2.
Proof. apply map_app. Qed.

Lemma chars_zeros (j : nat) : chars (repeat 0 j) = zeros j.
Proof.
  induction j as [|j IH]; [reflexivity|].
  change (chars (repeat 0 (S j))) with (digit_char 0 :: chars (repeat 0 j)).
  by rewrite IH.
Qed.

(** ** Trailing zeros *)

Lemma strip_zeros_rev_spec (l : list Z) :
  ∃ j, l = repeat 0 j ++ strip_zeros_rev l
       ∧ (strip_zeros_rev l = [] ∨ ∃ d l', strip_zeros_rev l = d :: l' ∧ d ≠ 0).
Proof.
  induction l as [|d l IH].
  - exists O. split; [reflexivity|by left].
  - destruct (Z.eq_dec d 0) as [->|Hd].
    + destruct IH as (j & Hl & Hs). exists (S j). simpl. split; [by rewrite <- Hl|exact Hs].
    + exists O. assert (Hs : strip_zeros_rev (d :: l) = d :: l) by (by destruct d).
      rewrite Hs. split; [reflexivity|]. right. eauto.
Qed.

Lemma repeat_rev {A} (a : A) (j : nat) : rev (repeat a j) = repeat a j.
Proof.
  induction j as [|j IH]; simpl; [reflexivity|].
  rewrite IH. symmetry. apply repeat_cons.
Qed.

Lemma drop_trailing_zeros_spec (D : list Z) :
  ∃ j, D = drop_trailing_zeros D ++ repeat 0 j
       ∧ (drop_trailing_zeros D = []
          ∨ ∃ l d, drop_trailing_zeros D = l ++ [d] ∧ d ≠ 0).
Proof.
  unfold drop_trailing_zeros.
  destruct (strip_zeros_rev_spec (rev D)) as (j & Hl & Hs).
  exists j. split.
  - rewrite <- (rev_involutive D) at 1. rewrite Hl at 1.
    by rewrite rev_app_distr, repeat_rev.
  - destruct Hs as [->|(d & l' & -> & Hd)]; [by left|].
    right. exists (rev l'), d. split; [reflexivity|exact Hd].
Qed.

Lemma drop_trailing_zeros_id (l : list Z) (d : Z) :
  d ≠ 0 → drop_trailing_zeros (l ++ [d]) = l ++ [d].
Proof.
  intros Hd. unfold drop_trailing_zeros. rewrite rev_app_distr.
  change (rev [d] ++ rev l) with (d :: rev l).
  assert (Hs : strip_zeros_rev (d :: rev l) = d :: rev l) by (by destruct d).
  rewrite Hs. simpl. by rewrite rev_involutive.
Qed.

(** ** The layouts that [Number_toString] writes, read back *)

Lemma parse_sign_layout (neg : bool) (ip : list Z) (rest : list ascii) :
  int_ok ip →
  parse_sign (sign_chars neg ++ chars ip ++ rest) = (neg, chars ip ++ rest).
Proof.
  intros [Hdec Hip]. destruct neg; [reflexivity|].
  assert (∃ d l, ip = d :: l) as (d & l & ->)
    by (destruct Hip as [->|(d & l & -> & _)]; eauto).
  apply Forall_cons in Hdec as [Hd _].
  change (sign_chars false ++ chars (d :: l) ++ rest)
    with (digit_char d :: (chars l ++ rest)).
  unfold parse_sign. rewrite code_digit_char by done.
  unfold is_dec in Hd. destruct (Z.eqb_spec (48 + d) 45); [lia|reflexivity].
Qed.

Lemma parse_int_part_chars (ip : list Z) (rest : list ascii) :
  int_ok ip → no_digit_head rest →
  parse_int_part (chars ip ++ rest) = Some (ip, rest).
Proof.
  intros [Hdec Hip] Hrest. destruct Hip as [->|(d & l & -> & Hd0)]; [reflexivity|].
  pose proof Hdec as Hdec'. apply Forall_cons in Hdec' as [Hd _].
  rewrite <- (span_digits_chars (d :: l) rest Hdec Hrest).
  change (chars (d :: l) ++ rest) with (digit_char d :: (chars l ++ rest)).
  unfold parse_int_part. rewrite code_digit_char, is_digit_digit_char by done.
  destruct (Z.eqb_spec (48 + d) 48); [lia|reflexivity].
Qed.

Lemma no_digit_head_exp (e : option Z) : no_digit_head (exp_chars e).
Proof. destruct e; reflexivity. Qed.

Lemma no_digit_head_frac (fp : list Z) (e : option Z) :
  no_digit_head (frac_chars fp ++ exp_chars e).
Proof. destruct fp; [apply no_digit_head_exp|reflexivity]. Qed.

Lemma parse_frac_part_chars (fp : list Z) (e : option Z) :
  Forall is_dec fp →
  parse_frac_part (frac_chars fp ++ exp_chars e) = Some (fp, exp_chars e).
Proof.
  intros Hdec. destruct fp as [|d l].
  - destruct e; reflexivity.
  - change (frac_chars (d :: l) ++ exp_chars e)
      with ("."%char :: (chars (d :: l) ++ exp_chars e)).
    unfold parse_frac_part. change (code "." =? 46) with true. cbv iota.
    by rewrite (span_digits_chars (d :: l) _ Hdec (no_digit_head_exp e)).
Qed.

Lemma parse_exp_part_chars (e : option Z) :
  parse_exp_part (exp_chars e) = Some (default 0 e, []).
Proof.
  destruct e as [e|]; [|reflexivity].
  assert (Hsp : span_digits (chars (digits (Z.abs e)))
                = (digits (Z.abs e), [])).
  { rewrite <- (app_nil_r (chars _)).
    apply span_digits_chars; [apply digits_dec; lia|exact I]. }
  assert (Hne : ∃ d l, digits (Z.abs e) = d :: l).
  { destruct (digits_last (Z.abs e) ltac:(lia)) as [l Hl]. rewrite Hl.
    destruct l; simpl; eauto. }
  destruct Hne as (d & l & Hdl).
  unfold exp_chars, parse_exp_part.
  change (code "e" =? 101) with true. cbv iota. cbn [orb].
  destruct (Z.ltb_spec e 0) as [Hneg|Hpos].
  - change (code "-" =? 45) with true. cbv iota.
    rewrite Hsp, Hdl, <- Hdl, of_digits_digits by lia. simpl. f_equal. f_equal. lia.
  - change (code "+" =? 45) with false. change (code "+" =? 43) with true. cbv iota.
    rewrite Hsp, Hdl, <- Hdl, of_digits_digits by lia. simpl. f_equal. f_equal. lia.
Qed.

Lemma parse_number_layout (neg : bool) (ip fp : list Z) (e : option Z) :
  int_ok ip → Forall is_dec fp →
  parse_number (layout neg ip fp e) =
  Some (make_number (if neg then - of_digits 0 (ip ++ fp) else of_digits 0 (ip ++ fp))
                    (default 0 e - Z.of_nat (length fp)), []).
Proof.
  intros Hip Hfp. unfold parse_number, layout.
  rewrite parse_sign_layout by done.
  rewrite parse_int_part_chars by (done || apply no_digit_head_frac). simpl.
  rewrite parse_frac_part_chars by done. simpl.
  rewrite parse_exp_part_chars. reflexivity.
Qed.

Lemma strip_canonical (m : Z) (sc : nat) :
  canonical (mkNum m sc) = true → strip m sc = mkNum m sc.
Proof.
  destruct sc as [|sc]; [reflexivity|]. unfold canonical. simpl.
  by destruct (m mod 10 =? 0).
Qed.

Lemma make_number_canonical (m : Z) (sc : nat) :
  canonical (mkNum m sc) = true → make_number m (- Z.of_nat sc) = mkNum m sc.
Proof.
  intros Hc. unfold make_number. destruct sc as [|sc].
  - simpl. f_equal. lia.
  - destruct (Z.leb_spec 0 (- Z.of_nat (S sc))) as [H|H]; [lia|].
    rewrite Z.opp_involutive, Nat2Z.id. by apply strip_canonical.
Qed.

Lemma signed_abs (m : Z) : (if m <? 0 then - Z.abs m else Z.abs m) = m.
Proof. destruct (Z.ltb_spec m 0); lia. Qed.

(** Every canonical number is written in one of the layouts, and the
    layout denotes the number. *)
Lemma Number_toString_layout (x : number) :
  canonical x = true →
  ∃ neg ip fp e,
    Number_toString x = layout neg ip fp e
    ∧ int_ok ip ∧ Forall is_dec fp
    ∧ make_number (if neg then - of_digits 0 (ip ++ fp) else of_digits 0 (ip ++ fp))
                  (default 0 e - Z.of_nat (length fp)) = x.
Proof.
  destruct x as [m sc]. intros Hc.
  destruct (Z.eq_dec m 0) as [->|Hm].
  { destruct sc as [|sc]; [|discriminate Hc].
    exists false, [0], [], None. split_and!; try reflexivity; [|constructor].
    split; [repeat constructor; unfold is_dec; lia | by left]. }
  set (a := Z.abs m). assert (Ha : 0 < a) by (subst a; lia).
  pose proof (of_digits_digits a ltac:(lia)) as Hval.
  pose proof (digits_dec a ltac:(lia)) as Hdec.
  destruct (digits_head a Ha) as (d0 & l0 & HD & Hd0).
  destruct (digits_last a ltac:(lia)) as (lz & Hlast).
  destruct (drop_trailing_zeros_spec (digits a)) as (j & Hj & Hs).
  unfold Number_toString. cbn [mant scale]. fold a. cbv zeta.
  destruct (Z.eqb_spec m 0) as [|_]; [done|].
  change (if m <? 0 then ["-"%char] else []) with (sign_chars (m <? 0)).
  set (D := digits a) in *. set (s := drop_trailing_zeros D) in *.
  assert (HL : length D = (length s + j)%nat).
  { rewrite Hj at 1. by rewrite length_app, repeat_length. }
  assert (Hsdec : Forall is_dec s).
  { rewrite Hj in Hdec. by apply Forall_app in Hdec as [? _]. }
  assert (Hsval : of_digits 0 s * 10 ^ Z.of_nat j = a).
  { rewrite <- Hval, Hj, of_digits_app, of_digits_zeros. reflexivity. }
  assert (Hshead : ∃ ds, s = d0 :: ds).
  { destruct s as [|d ds].
    - simpl in Hsval. lia.
    - rewrite HD in Hj. simpl in Hj. injection Hj as -> _. eauto. }
  destruct Hshead as [ds Hds].
  assert (Hexp : ∀ e', 
             match s with
             | [d] => digit_char d :: exp_chars (Some e')
             | d :: ds' => digit_char d :: "."%char :: chars ds' ++ exp_chars (Some e')
             | [] => exp_chars (Some e')
             end = chars [d0] ++ frac_chars ds ++ exp_chars (Some e')).
  { intros e'. rewrite Hds. destruct ds; reflexivity. }
  assert (Hd0dec : is_dec d0 ∧ Forall is_dec ds).
  { rewrite Hds in Hsdec. by apply Forall_cons in Hsdec. }
  destruct Hd0dec as [Hd0dec Hfpd].
  assert (Hipd : int_ok [d0]).
  { split; [|right; eauto]. apply Forall_cons. split; [assumption|constructor]. }
  destruct sc as [|sc].
  - (* an integer *)
    rewrite Z.sub_0_r.
    destruct (Z.leb_spec (Z.of_nat (length s)) (Z.of_nat (length D))) as [_|?]; [|lia].
    destruct (Z.leb_spec (Z.of_nat (length D)) 21) as [H21|H21]; cbn [andb].
    + exists (m <? 0), D, [], None. split_and!.
      * unfold layout. f_equal. simpl. rewrite !app_nil_r.
        replace (Z.to_nat (Z.of_nat (length D) - Z.of_nat (length s))) with j by lia.
        by rewrite <- chars_zeros, <- chars_app, <- Hj.
      * split; [exact Hdec|]. right. eauto.
      * constructor.
      * rewrite app_nil_r, Hval, signed_abs. simpl. unfold make_number. simpl.
        f_equal. lia.
    + destruct (Z.ltb_spec 0 (Z.of_nat (length D))) as [_|?]; [|lia]. cbn [andb].
      destruct (Z.ltb_spec (-6) (Z.of_nat (length D))) as [_|?]; [|lia].
      destruct (Z.leb_spec (Z.of_nat (length D)) 0) as [?|_]; [lia|]. cbn [andb].
      exists (m <? 0), [d0], ds, (Some (Z.of_nat (length D) - 1)). split_and!.
      * unfold layout. f_equal. apply Hexp.
      * exact Hipd.
      * exact Hfpd.
      * change ([d0] ++ ds) with (d0 :: ds). rewrite <- Hds. simpl default.
        replace (Z.of_nat (length D) - 1 - Z.of_nat (length ds)) with (Z.of_nat j)
          by (rewrite HL, Hds; simpl length; lia).
        unfold make_number. destruct (Z.leb_spec 0 (Z.of_nat j)); [|lia].
        f_equal. destruct (Z.ltb_spec m 0); subst a; lia.
  - (* a fraction: the last digit is not zero *)
    assert (Hm10 : a mod 10 ≠ 0).
    { unfold canonical in Hc. simpl in Hc.
      destruct (Z.eqb_spec (m mod 10) 0) as [|Hne]; [discriminate|].
      subst a. intros H0. apply Hne.
      destruct (Z.abs_eq_or_opp m) as [Heq|Heq]; rewrite Heq in H0; [exact H0|].
      apply Z.mod_opp_l_z in H0; [|lia]. by rewrite Z.opp_involutive in H0. }
    assert (HsD : s = D).
    { unfold s. rewrite Hlast. by apply drop_trailing_zeros_id. }
    rewrite HsD in *. clear HsD Hj Hs. assert (j = O) as -> by lia.
    set (n := Z.of_nat (length D) - Z.of_nat (S sc)).
    assert (HLpos : (0 < length D)%nat) by (rewrite HD; simpl; lia).
    destruct (Z.leb_spec (Z.of_nat (length D)) n) as [?|_]; [lia|]. cbn [andb].
    destruct (Z.ltb_spec 0 n) as [Hn0|Hn0];
      [destruct (Z.leb_spec n 21) as [Hn21|Hn21]|]; cbn [andb].
    + (* digits with a point inside *)
      exists (m <? 0), (take (Z.to_nat n) D), (drop (Z.to_nat n) D), None.
      assert (Hdrop : ∃ d l, drop (Z.to_nat n) D = d :: l).
      { destruct (drop (Z.to_nat n) D) as [|d l] eqn:E; [|eauto].
        apply (f_equal length) in E. rewrite length_drop in E. simpl in E. lia. }
      split_and!.
      * unfold layout. f_equal. f_equal. destruct Hdrop as (d & l & ->).
        simpl. by rewrite app_nil_r.
      * split; [by apply Forall_take|]. right.
        destruct (Z.to_nat n) as [|n'] eqn:E; [lia|].
        rewrite HD. simpl. eauto.
      * by apply Forall_drop.
      * rewrite take_drop, Hval, signed_abs. simpl default.
        replace (0 - Z.of_nat (length (drop (Z.to_nat n) D))) with (- Z.of_nat (S sc))
          by (rewrite length_drop; lia).
        by apply make_number_canonical.
    + (* exponential, large *)
      destruct (Z.ltb_spec (-6) n) as [_|?]; [|lia].
      destruct (Z.leb_spec n 0) as [?|_]; [lia|]. cbn [andb].
      exists (m <? 0), [d0], ds, (Some (n - 1)). split_and!.
      * unfold layout. f_equal. apply Hexp.
      * exact Hipd.
      * exact Hfpd.
      * change ([d0] ++ ds) with (d0 :: ds). rewrite <- Hds, Hval, signed_abs.
        simpl default.
        replace (n - 1 - Z.of_nat (length ds)) with (- Z.of_nat (S sc))
          by (subst n; rewrite Hds; simpl length; lia).
        by apply make_number_canonical.
    + destruct (Z.ltb_spec (-6) n) as [Hn6|Hn6];
        destruct (Z.leb_spec n 0) as [_|?]; try lia; cbn [andb].
      * (* 0.000ddd *)
        exists (m <? 0), [0], (repeat 0 (Z.to_nat (- n)) ++ D), None. split_and!.
        -- unfold layout. f_equal.
           assert (Hfr : frac_chars (repeat 0 (Z.to_nat (- n)) ++ D)
                         = "."%char :: zeros (Z.to_nat (- n)) ++ chars D).
           { rewrite <- chars_zeros, <- chars_app.
             rewrite HD. by destruct (repeat 0 (Z.to_nat (- n))). }
           rewrite Hfr. simpl. by rewrite app_nil_r.
        -- split; [repeat constructor; unfold is_dec; lia | by left].
        -- apply Forall_app. split; [|exact Hdec].
           apply Forall_forall. intros z Hz%list_elem_of_In%repeat_spec.
           subst z. unfold is_dec. lia.
        -- assert (Hv0 : of_digits 0 ([0] ++ repeat 0 (Z.to_nat (- n)) ++ D) = a).
           { rewrite !of_digits_app, of_digits_zeros. simpl of_digits at 2.
             rewrite Z.mul_0_l. exact Hval. }
           rewrite Hv0, signed_abs. simpl default.
           replace (0 - Z.of_nat (length (repeat 0 (Z.to_nat (- n)) ++ D)))
             with (- Z.of_nat (S sc))
             by (rewrite length_app, repeat_length; lia).
           by apply make_number_canonical.
      * (* exponential, small *)
        exists (m <? 0), [d0], ds, (Some (n - 1)). split_and!.
        -- unfold layout. f_equal. apply Hexp.
        -- exact Hipd.
        -- exact Hfpd.
        -- change ([d0] ++ ds) with (d0 :: ds). rewrite <- Hds, Hval, signed_abs.
           simpl default.
           replace (n - 1 - Z.of_nat (length ds)) with (- Z.of_nat (S sc))
             by (subst n; rewrite Hds; simpl length; lia).
           by apply make_number_canonical.
Qed.

(** ** [JSON.parse] after [JSON.stringify], on primitive values *)

Lemma layout_head (neg : bool) (ip fp : list Z) (e : option Z) :
  int_ok ip →
  ∃ c r, layout neg ip fp e = c :: r ∧ (code c = 45 ∨ 48 ≤ code c ≤ 57).
Proof.
  intros [Hdec Hip]. unfold layout. destruct neg.
  - eexists _, _. split; [reflexivity|]. by left.
  - assert (∃ d l, ip = d :: l) as (d & l & ->)
      by (destruct Hip as [->|(d & l & -> & _)]; eauto).
    apply Forall_cons in Hdec as [Hd _].
    eexists _, _. split; [reflexivity|]. right.
    rewrite code_digit_char by done. unfold is_dec in Hd. lia.
Qed.

Lemma parse_value_number (f : nat) (c : ascii) (r r' : list ascii) (x : number) :
  code c = 45 ∨ 48 ≤ code c ≤ 57 →
  parse_number (c :: r) = Some (x, r') →
  parse_value (S f) (c :: r) = Some (JNum x, r').
Proof.
  intros Hc Hp. cbn [parse_value skip_ws].
  assert (Hws : is_ws c = false).
  { unfold is_ws.
    destruct (Z.eqb_spec (code c) 32), (Z.eqb_spec (code c) 9),
      (Z.eqb_spec (code c) 10), (Z.eqb_spec (code c) 13); try reflexivity; lia. }
  rewrite Hws.
  destruct (Z.eqb_spec (code c) 110); [lia|].
  destruct (Z.eqb_spec (code c) 116); [lia|].
  destruct (Z.eqb_spec (code c) 102); [lia|].
  destruct (Z.eqb_spec (code c) 34); [lia|].
  destruct (Z.eqb_spec (code c) 91); [lia|].
  destruct (Z.eqb_spec (code c) 123); [lia|].
  by rewrite Hp.
Qed.

Lemma JSON_roundtrip_number (x : number) :
  canonical x = true → JSON_parse (JSON_stringify (JNum x)) = Normal (JNum x).
Proof.
  intros Hc.
  destruct (Number_toString_layout x Hc) as (neg & ip & fp & e & Htxt & Hip & Hfp & Hx).
  unfold JSON_parse, JSON_stringify. cbn [stringify_chars].
  rewrite list_ascii_of_string_of_list_ascii, Htxt.
  destruct (layout_head neg ip fp e Hip) as (c & r & Hl & Hhead).
  pose proof (parse_number_layout neg ip fp e Hip Hfp) as Hp.
  rewrite Hx, Hl in Hp. rewrite Hl.
  by rewrite (parse_value_number _ c r [] x Hhead Hp).
Qed.

Lemma parse_string_body_quote_char (a : ascii) (tail acc : list ascii) :
  parse_string_body (quote_char a ++ tail) acc = parse_string_body tail (a :: acc).
Proof.
  destruct a as [[] [] [] [] [] [] [] []]; reflexivity.
Qed.

Lemma parse_string_body_quoted (cs acc rest : list ascii) :
  parse_string_body (flat_map quote_char cs ++ dquote :: rest) acc
  = Some (rev acc ++ cs, rest).
Proof.
  revert acc. induction cs as [|a cs IH]; intros acc.
  - simpl. by rewrite app_nil_r.
  - cbn [flat_map]. rewrite <- app_assoc, parse_string_body_quote_char, IH.
    simpl. by rewrite <- app_assoc.
Qed.

Lemma JSON_roundtrip_string (s : string) :
  JSON_parse (JSON_stringify (JStr s)) = Normal (JStr s).
Proof.
  unfold JSON_parse, JSON_stringify. cbn [stringify_chars].
  rewrite list_ascii_of_string_of_list_ascii. unfold quote_chars.
  cbn [parse_value skip_ws]. change (is_ws dquote) with false. cbv iota.
  change (code dquote =? 110) with false. change (code dquote =? 116) with false.
  change (code dquote =? 102) with false. change (code dquote =? 34) with true.
  cbv iota.
  rewrite (parse_string_body_quoted (list_ascii_of_string s) [] []).
  simpl. by rewrite string_of_list_ascii_of_string.
Qed.

Lemma JSON_roundtrip (v : jsval) :
  primitive v = true → JSON_parse (JSON_stringify v) = Normal v.
Proof.
  destruct v as [|[]|x|s|l|l]; intros Hv; try discriminate Hv.
  - reflexivity.
  - reflexivity.
  - reflexivity.
  - by apply JSON_roundtrip_number.
  - apply JSON_roundtrip_string.
Qed.

(** ** The fuel of [JSON_parse] is enough *)

Lemma skip_ws_length (cs : list ascii) : (length (skip_ws cs) ≤ length cs)%nat.
Proof.
  induction cs as [|c cs IH]; simpl; [lia|].
  destruct (is_ws c); simpl; lia.
Qed.

Lemma expect_length (lit cs r : list ascii) :
  expect lit cs = Some r → (length r ≤ length cs)%nat.
Proof.
  revert cs. induction lit as [|l lit IH]; intros cs; simpl.
  - intros [= ->]. lia.
  - destruct cs as [|c cs]; [discriminate|].
    destruct (Ascii.eqb l c); [|discriminate].
    intros H%IH. simpl. lia.
Qed.

Lemma span_digits_length (cs : list ascii) (ds : list Z) (r : list ascii) :
  span_digits cs = (ds, r) → (length r + length ds = length cs)%nat.
Proof.
  revert ds r. induction cs as [|c cs IH]; intros ds r; simpl.
  - intros [= <- <-]. reflexivity.
  - destruct (is_digit c).
    + destruct (span_digits cs) as [ds' r'] eqn:E. intros [= <- <-].
      specialize (IH _ _ eq_refl). simpl. lia.
    + intros [= <- <-]. simpl. lia.
Qed.

Lemma parse_string_body_length (n : nat) (cs acc s r : list ascii) :
  (length cs ≤ n)%nat →
  parse_string_body cs acc = Some (s, r) → (length r < length cs)%nat.
Proof.
  revert cs acc. induction n as [|n IH]; intros cs acc Hn.
  - destruct cs; [discriminate|simpl in Hn; lia].
  - destruct cs as [|c cs]; [discriminate|]. simpl in Hn.
    cbn [parse_string_body].
    repeat match goal with
           | |- context [if ?b then _ else _] => destruct b
           | |- context [match ?x with _ => _ end] => destruct x eqn:?
           end;
      try discriminate;
      try (intros [= <- <-]; simpl; lia);
      intros H%IH; simpl in *; lia.
Qed.

Lemma parse_number_length (cs r : list ascii) (x : number) :
  parse_number cs = Some (x, r) → (length r < length cs)%nat.
Proof.
  unfold parse_number.
  destruct (parse_sign cs) as [neg cs1] eqn:Es.
  assert (H1 : (length cs1 ≤ length cs)%nat).
  { unfold parse_sign in Es. destruct cs as [|c cs']; [by injection Es as <- <-|].
    destruct (code c =? 45); injection Es as <- <-; simpl; lia. }
  destruct (parse_int_part cs1) as [[ip cs2]|] eqn:Ei; [|discriminate].
  assert (H2 : (length cs2 < length cs1)%nat).
  { unfold parse_int_part in Ei. destruct cs1 as [|c cs1']; [discriminate|].
    destruct (code c =? 48); [injection Ei as <- <-; simpl; lia|].
    destruct (is_digit c) eqn:Ed; [|discriminate].
    assert (Hsp : span_digits (c :: cs1') = (ip, cs2)) by congruence.
    pose proof (span_digits_length _ _ _ Hsp) as Hl.
    cbn [span_digits] in Hsp. rewrite Ed in Hsp.
    destruct (span_digits cs1') as [ds' r']. injection Hsp as <- <-.
    simpl in Hl |- *. lia. }
  simpl.
  destruct (parse_frac_part cs2) as [[fp cs3]|] eqn:Ef; [|discriminate].
  assert (H3 : (length cs3 ≤ length cs2)%nat).
  { unfold parse_frac_part in Ef. destruct cs2 as [|c cs2']; [by injection Ef as <- <-|].
    destruct (code c =? 46); [|by injection Ef as <- <-].
    destruct (span_digits cs2') as [ds r'] eqn:E.
    pose proof (span_digits_length _ _ _ E).
    destruct ds; [discriminate|]. injection Ef as <- <-. simpl. lia. }
  simpl.
  destruct (parse_exp_part cs3) as [[e cs4]|] eqn:Ee; [|discriminate].
  assert (H4 : (length cs4 ≤ length cs3)%nat).
  { unfold parse_exp_part in Ee. destruct cs3 as [|c cs3']; [by injection Ee as <- <-|].
    destruct (_ || _); [|by injection Ee as <- <-].
    destruct (match cs3' with [] => _ | _ => _ end) as [neg' r1] eqn:E1.
    assert (length r1 ≤ length cs3')%nat.
    { destruct cs3' as [|s0 r0]; [by injection E1 as <- <-|].
      destruct (code s0 =? 45); [injection E1 as <- <-; simpl; lia|].
      destruct (code s0 =? 43); injection E1 as <- <-; simpl; lia. }
    destruct (span_digits r1) as [ds r'] eqn:E.
    pose proof (span_digits_length _ _ _ E).
    destruct ds; [discriminate|]. injection Ee as <- <-. simpl. lia. }
  simpl. intros [= <- <-]. lia.
Qed.

(** A successful parse consumes at least one character. *)
Lemma parse_consumes (f : nat) :
  (∀ cs v r, parse_value f cs = Some (v, r) → (length r < length cs)%nat)
  ∧ (∀ cs acc v r, parse_elements f cs acc = Some (v, r) → (length r < length cs)%nat)
  ∧ (∀ cs acc v r, parse_members f cs acc = Some (v, r) → (length r < length cs)%nat).
Proof.
  induction f as [|f (IHv & IHe & IHm)]; [by split_and!|].
  split_and!.
  - intros cs v r. cbn [parse_value].
    pose proof (skip_ws_length cs) as Hws.
    destruct (skip_ws cs) as [|c cs1]; [discriminate|]. simpl in Hws.
    destruct (code c =? 110).
    { destruct (expect _ cs1) as [r0|] eqn:E; [|discriminate].
      apply expect_length in E. intros [= <- <-]. lia. }
    destruct (code c =? 116).
    { destruct (expect _ cs1) as [r0|] eqn:E; [|discriminate].
      apply expect_length in E. intros [= <- <-]. lia. }
    destruct (code c =? 102).
    { destruct (expect _ cs1) as [r0|] eqn:E; [|discriminate].
      apply expect_length in E. intros [= <- <-]. lia. }
    destruct (code c =? 34).
    { destruct (parse_string_body cs1 []) as [[s0 r0]|] eqn:E; [|discriminate].
      apply (parse_string_body_length (length cs1)) in E; [|lia].
      intros [= <- <-]. lia. }
    destruct (code c =? 91).
    { pose proof (skip_ws_length cs1) as Hws1.
      destruct (skip_ws cs1) as [|c' r']; [discriminate|]. simpl in Hws1.
      destruct (code c' =? 93); [intros [= <- <-]; lia|].
      intros H%IHe. lia. }
    destruct (code c =? 123).
    { pose proof (skip_ws_length cs1) as Hws1.
      destruct (skip_ws cs1) as [|c' r']; [discriminate|]. simpl in Hws1.
      destruct (code c' =? 125); [intros [= <- <-]; lia|].
      intros H%IHm. lia. }
    destruct (parse_number (c :: cs1)) as [[x r0]|] eqn:E; [|discriminate].
    apply parse_number_length in E. simpl in E. intros [= <- <-]. lia.
  - intros cs acc v r. cbn [parse_elements].
    destruct (parse_value f cs) as [[v0 r0]|] eqn:E; [|discriminate].
    apply IHv in E. simpl.
    pose proof (skip_ws_length r0) as Hws.
    destruct (skip_ws r0) as [|c r1]; [discriminate|]. simpl in Hws.
    destruct (code c =? 44); [intros H%IHe; lia|].
    destruct (code c =? 93); [|discriminate]. intros [= <- <-]. lia.
  - intros cs acc v r. cbn [parse_members].
    pose proof (skip_ws_length cs) as Hws.
    destruct (skip_ws cs) as [|q r0]; [discriminate|]. simpl in Hws.
    destruct (code q =? 34); [|discriminate].
    destruct (parse_string_body r0 []) as [[k r1]|] eqn:Ek; [|discriminate].
    apply (parse_string_body_length (length r0)) in Ek; [|lia]. simpl.
    pose proof (skip_ws_length r1) as Hws1.
    destruct (skip_ws r1) as [|c r2]; [discriminate|]. simpl in Hws1.
    destruct (code c =? 58); [|discriminate].
    destruct (parse_value f r2) as [[v0 r3]|] eqn:Ev; [|discriminate].
    apply IHv in Ev. simpl.
    pose proof (skip_ws_length r3) as Hws3.
    destruct (skip_ws r3) as [|c' r4]; [discriminate|]. simpl in Hws3.
    destruct (code c' =? 44); [intros H%IHm; lia|].
    destruct (code c' =? 125); [|discriminate]. intros [= <- <-]. lia.
Qed.

(** Past twice the length of the text, more fuel changes nothing. *)
Lemma parse_fuel (f : nat) :
  (∀ cs f', (2 * length cs + 1 ≤ f)%nat → (f ≤ f')%nat →
            parse_value f' cs = parse_value f cs)
  ∧ (∀ cs acc f', (2 * length cs + 2 ≤ f)%nat → (f ≤ f')%nat →
                  parse_elements f' cs acc = parse_elements f cs acc)
  ∧ (∀ cs acc f', (2 * length cs + 2 ≤ f)%nat → (f ≤ f')%nat →
                  parse_members f' cs acc = parse_members f cs acc).
Proof.
  induction f as [|f (IHv & IHe & IHm)]; [split_and!; intros; lia|].
  destruct (parse_consumes f) as (Cv & _ & _).
  split_and!.
  - intros cs [|f'] Hb Hf; [lia|]. cbn [parse_value].
    pose proof (skip_ws_length cs) as Hws.
    destruct (skip_ws cs) as [|c cs1]; [reflexivity|]. simpl in Hws.
    destruct (code c =? 110); [reflexivity|].
    destruct (code c =? 116); [reflexivity|].
    destruct (code c =? 102); [reflexivity|].
    destruct (code c =? 34); [reflexivity|].
    destruct (code c =? 91).
    { destruct (skip_ws cs1) as [|c' r']; [reflexivity|].
      destruct (code c' =? 93); [reflexivity|]. apply IHe; lia. }
    destruct (code c =? 123); [|reflexivity].
    destruct (skip_ws cs1) as [|c' r']; [reflexivity|].
    destruct (code c' =? 125); [reflexivity|]. apply IHm; lia.
  - intros cs acc [|f'] Hb Hf; [lia|]. cbn [parse_elements].
    rewrite (IHv cs f') by lia.
    destruct (parse_value f cs) as [[v0 r0]|] eqn:E; [|reflexivity].
    apply Cv in E. simpl.
    pose proof (skip_ws_length r0) as Hws.
    destruct (skip_ws r0) as [|c r1]; [reflexivity|]. simpl in Hws.
    destruct (code c =? 44); [|reflexivity]. apply IHe; lia.
  - intros cs acc [|f'] Hb Hf; [lia|]. cbn [parse_members].
    pose proof (skip_ws_length cs) as Hws.
    destruct (skip_ws cs) as [|q r0]; [reflexivity|]. simpl in Hws.
    destruct (code q =? 34); [|reflexivity].
    destruct (parse_string_body r0 []) as [[k r1]|] eqn:Ek; [|reflexivity].
    apply (parse_string_body_length (length r0)) in Ek; [|lia]. simpl.
    pose proof (skip_ws_length r1) as Hws1.
    destruct (skip_ws r1) as [|c r2]; [reflexivity|]. simpl in Hws1.
    destruct (code c =? 58); [|reflexivity].
    rewrite (IHv r2 f') by lia.
    destruct (parse_value f r2) as [[v0 r3]|] eqn:Ev; [|reflexivity].
    apply Cv in Ev. simpl.
    pose proof (skip_ws_length r3) as Hws3.
    destruct (skip_ws r3) as [|c' r4]; [reflexivity|]. simpl in Hws3.
    destruct (code c' =? 44); [|reflexivity]. apply IHm; lia.
Qed.

(** [JSON_parse] gives the answer of the parser with any larger fuel:
    a [SyntaxError] is never due to the fuel. *)
Lemma JSON_parse_fuel (raw : string) (f : nat) :
  (S (2 * length (list_ascii_of_string raw)) ≤ f)%nat →
  JSON_parse raw =
  match parse_value f (list_ascii_of_string raw) with
  | Some (v, r) =>
      match skip_ws r with
      | [] => Normal v
      | _ :: _ => Throw SyntaxError
      end
  | None => Throw SyntaxError
  end.
Proof.
  intros Hf. unfold JSON_parse.
  destruct (parse_fuel (S (2 * length (list_ascii_of_string raw)))) as (Hv & _ & _).
  rewrite (Hv _ f); [reflexivity|lia|exact Hf].
Qed.

(** ** Setter calls *)

Lemma commit_single (k : PreferenceKey) (v : jsval) (s : Snapshot) (w : Window) :
  commit [(k, v)] s w =
  if Object_is (get k s) v then Normal w
  else persist_effect w (storageKey k) v.
Proof.
  destruct k; unfold commit, hook_order; cbn [foldM];
    unfold commit_step, changed; simpl;
    destruct (Object_is _ v); simpl; try reflexivity;
    match goal with
    | |- context [persist_effect ?a ?b ?c] => by destruct (persist_effect a b c)
    end.
Qed.

Lemma set_eq (k : PreferenceKey) (v : jsval) (s : Snapshot) (w : Window) :
  set k v (s, w) =
  (if Object_is (get k s) v then Normal w else persist_effect w (storageKey k) v)
  ≫= λ w', Normal (setValue k v s, w').
Proof. unfold set, dispatch. simpl. by rewrite commit_single. Qed.

Lemma Num_leb_ltb (a b : number) : Num_leb a b = true → Num_ltb b a = false.
Proof.
  unfold Num_leb, Num_ltb. intros H%Z.leb_le. apply Z.ltb_ge. exact H.
Qed.

Lemma clamp_in_domain (k : PreferenceKey) (v : jsval) :
  in_domain k v = true → clamp k v = v.
Proof.
  unfold in_domain, clamp. destruct (range k) as [[lo hi]|]; [|reflexivity].
  destruct v as [| |x| | |]; try discriminate.
  intros [Hlo Hhi]%andb_true_iff.
  by rewrite (Num_leb_ltb _ _ Hlo), (Num_leb_ltb _ _ Hhi).
Qed.

(** C1, as the code has it: after a setter call the cell holds the very
    value passed, whatever it is. A value within the declared range is
    kept, so there the cell equals the clamped value; a value outside the
    range is kept as well and is not moved to a bound. *)
Theorem set_then_get (k : PreferenceKey) (v : jsval) (s : Snapshot) (w : Window) :
  ∃ st', set k v (s, w) = Normal st'
         ∧ get k st'.1 = v
         ∧ (in_domain k v = true → get k st'.1 = clamp k v).
Proof.
  destruct (dispatch_total [(k, v)] s w) as (w' & Hd).
  exists (setValue k v s, w'). split; [exact Hd|]. simpl.
  rewrite get_setValue_eq. split; [reflexivity|].
  intros Hin. by rewrite clamp_in_domain.
Qed.

Lemma set_then_get_witness :
  ∃ st', set kFontSize (dec 20 0) (initialize, None) = Normal st'
         ∧ get kFontSize st'.1 = clamp kFontSize (dec 20 0).
Proof.
  destruct (set_then_get kFontSize (dec 20 0) initialize None) as (st' & H & _ & Hc).
  exists st'. split; [exact H|]. apply Hc. reflexivity.
Defined.

(** C1 as stated fails: a font size of 100 lies above the range 14..26,
    and after the setter call the cell holds 100, not the bound 26. *)
Lemma set_out_of_range_counterexample :
  ∃ st', set kFontSize (dec 100 0) (initialize, None) = Normal st'
         ∧ in_domain kFontSize (dec 100 0) = false
         ∧ clamp kFontSize (dec 100 0) = dec 26 0
         ∧ get kFontSize st'.1 = dec 100 0
         ∧ get kFontSize st'.1 ≠ clamp kFontSize (dec 100 0).
Proof.
  eexists. split; [reflexivity|]. split_and!; try reflexivity. discriminate.
Qed.

(** ** Hydration, key by key *)

(** C2, as the code has it: when the record of a key is read and parsed,
    the hydrate effect passes the parsed value as it is to the setter,
    without clamping; the cell of that key holds it afterwards, and every
    other cell is decided by its own record alone. *)
Theorem hydrate_overwrites_parsed
    (w : Window) (s : Snapshot) (k : PreferenceKey) (raw : string) (v : jsval) :
  read_item w (storageKey k) = Normal (Some raw) →
  JSON_parse raw = Normal v →
  hydrate_effect w (storageKey k) = Normal (Some v)
  ∧ ∃ s', hydrate w s = Normal s'
          ∧ get k s' = v
          ∧ ∀ k', k' ≠ k →
                  get k' (setValue k v s) = get k' s
                  ∧ get k' s' = match hydrate_effect w (storageKey k') with
                                | Normal (Some v') => v'
                                | _ => get k' s
                                end.
Proof.
  intros Hr Hp. pose proof (hydrate_effect_parsed w _ raw v Hr Hp) as He.
  split; [exact He|].
  destruct (hydrate_cell w s) as (s' & Hs' & Hcell).
  exists s'. split; [exact Hs'|]. split.
  - by rewrite Hcell, He.
  - intros k' Hne. split; [by apply get_setValue_ne|apply Hcell].
Qed.

(** C2 as stated fails: with the record [100] stored for the font size,
    hydration leaves 100 in the cell, not the bound 26. *)
Lemma hydrate_out_of_range_counterexample :
  ∃ s', hydrate (Some (storage_of [("readable:fontSize", "100")])) initialize
        = Normal s'
        ∧ JSON_parse "100" = Normal (dec 100 0)
        ∧ clamp kFontSize (dec 100 0) = dec 26 0
        ∧ get kFontSize s' = dec 100 0
        ∧ get kFontSize s' ≠ clamp kFontSize (dec 100 0).
Proof.
  eexists. split; [vm_compute; reflexivity|]. split_and!; try reflexivity. discriminate.
Qed.

Lemma hydrate_overwrites_parsed_witness :
  ∃ s', hydrate (Some (storage_of [("readable:maxWidth", "72")])) initialize
        = Normal s'
        ∧ get kMaxWidthCh s' = dec 72 0
        ∧ get kFontSize s' = dec 18 0.
Proof.
  destruct (hydrate_overwrites_parsed
              (Some (storage_of [("readable:maxWidth", "72")])) initialize
              kMaxWidthCh "72" (dec 72 0) eq_refl eq_refl)
    as (_ & s' & Hs' & Hk & Hother).
  exists s'. split; [exact Hs'|]. split; [exact Hk|].
  destruct (Hother kFontSize ltac:(discriminate)) as [_ ->]. reflexivity.
Defined.

(** C10: whatever value the stored text parses to is put into the cell
    as it is. Nothing is asked of [v]: neither the declared type of the
    key nor its range. The only records that hydration passes over are
    the ones that cannot be read or do not parse. *)
Theorem hydrate_verbatim
    (w : Window) (s : Snapshot) (k : PreferenceKey) (raw : string) (v : jsval) :
  read_item w (storageKey k) = Normal (Some raw) →
  JSON_parse raw = Normal v →
  ∃ s', hydrate w s = Normal s' ∧ get k s' = v.
Proof.
  intros Hr Hp. destruct (hydrate_cell w s) as (s' & Hs' & Hcell).
  exists s'. split; [exact Hs'|].
  by rewrite Hcell, (hydrate_effect_parsed w _ raw v Hr Hp).
Qed.

Lemma hydrate_verbatim_witness :
  has_type kFontSize (JStr "huge") = false
  ∧ ∃ s', hydrate (Some (storage_of [("readable:fontSize", (JSON_stringify (JStr "huge")))])) initialize
          = Normal s'
          ∧ get kFontSize s' = JStr "huge".
Proof.
  split; [reflexivity|].
  exact (hydrate_verbatim
           (Some (storage_of [("readable:fontSize", (JSON_stringify (JStr "huge")))])) initialize
           kFontSize (JSON_stringify (JStr "huge")) (JStr "huge") eq_refl eq_refl).
Defined.

Example hydrate_verbatim_far_out_of_range :
  ∃ s', hydrate (Some (storage_of [("readable:lineHeight", "-1e6")])) initialize
        = Normal s'
        ∧ get kLineHeight s' = dec (-1000000) 0
        ∧ in_domain kLineHeight (get kLineHeight s') = false.
Proof. eexists. split; [vm_compute; reflexivity|]. split; reflexivity. Qed.

Example hydrate_verbatim_array :
  ∃ s', hydrate (Some (storage_of [("readable:theme", "[1, 2]")])) initialize
        = Normal s'
        ∧ get kTheme s' = JArr [dec 1 0; dec 2 0].
Proof. eexists. split; [vm_compute; reflexivity|]. reflexivity. Qed.

(** C4: a key whose record cannot be read, is absent or does not parse
    keeps the value it had, and every other key whose record is read and
    parsed is restored from it. *)
Theorem hydrate_isolation (w : Window) (s : Snapshot) (k : PreferenceKey) :
  (∃ e, read_item w (storageKey k) = Throw e)
  ∨ read_item w (storageKey k) = Normal None
  ∨ (∃ raw e, read_item w (storageKey k) = Normal (Some raw)
              ∧ JSON_parse raw = Throw e) →
  ∃ s', hydrate w s = Normal s'
        ∧ get k s' = get k s
        ∧ ∀ k' raw' v', k' ≠ k →
            read_item w (storageKey k') = Normal (Some raw') →
            JSON_parse raw' = Normal v' →
            get k' s' = v'.
Proof.
  intros Hfail. destruct (hydrate_cell w s) as (s' & Hs' & Hcell).
  exists s'. split; [exact Hs'|]. split.
  - rewrite Hcell.
    destruct Hfail as [[e He]|[Ha|(raw & e & Hr & Hp)]].
    + by rewrite (hydrate_effect_unreadable w _ e He).
    + by rewrite (hydrate_effect_absent w _ Ha).
    + by rewrite (hydrate_effect_unparseable w _ raw e Hr Hp).
  - intros k' raw' v' _ Hr Hp.
    by rewrite Hcell, (hydrate_effect_parsed w _ raw' v' Hr Hp).
Qed.

Lemma hydrate_isolation_witness :
  ∃ s', hydrate (Some (storage_of [("readable:fontSize", "{oops");
                                   ("readable:theme", (JSON_stringify (JStr "dark")))])) initialize
        = Normal s'
        ∧ get kFontSize s' = dec 18 0
        ∧ get kTheme s' = JStr "dark".
Proof.
  destruct (hydrate_isolation
              (Some (storage_of [("readable:fontSize", "{oops");
                                 ("readable:theme", (JSON_stringify (JStr "dark")))]))
              initialize kFontSize)
    as (s' & Hs' & Hk & Hother).
  { right. right. exists "{oops", SyntaxError. split; reflexivity. }
  exists s'. split; [exact Hs'|]. split; [exact Hk|].
  apply (Hother kTheme (JSON_stringify (JStr "dark")) (JStr "dark")); [discriminate|reflexivity..].
Defined.

(** ** Persistence *)

(** C5: when the write of [persist] throws, the effect completes
    normally and leaves the storage as it was; the setter call as a whole
    completes normally, the cell holds the new value, and no other cell
    is touched. *)
Theorem persist_failure_swallowed
    (k : PreferenceKey) (v : jsval) (s : Snapshot) (ls : Storage) (e : exn) :
  setItem ls (storageKey k) (JSON_stringify v) = Throw e →
  persist_effect (Some ls) (storageKey k) v = Normal (Some ls)
  ∧ set k v (s, Some ls) = Normal (setValue k v s, Some ls)
  ∧ get k (setValue k v s) = v
  ∧ ∀ k', k' ≠ k → get k' (setValue k v s) = get k' s.
Proof.
  intros Hw.
  assert (Hp : persist_effect (Some ls) (storageKey k) v = Normal (Some ls)).
  { unfold persist_effect. by rewrite Hw. }
  split_and!.
  - exact Hp.
  - rewrite set_eq. destruct (Object_is (get k s) v); [reflexivity|by rewrite Hp].
  - apply get_setValue_eq.
  - intros k' Hne. by apply get_setValue_ne.
Qed.

Lemma persist_failure_swallowed_witness :
  set kWordSpacing (dec 3 0) (initialize, Some full_storage)
  = Normal (setValue kWordSpacing (dec 3 0) initialize, Some full_storage)
  ∧ get kWordSpacing (setValue kWordSpacing (dec 3 0) initialize) = dec 3 0.
Proof.
  destruct (persist_failure_swallowed kWordSpacing (dec 3 0) initialize
              full_storage DOMException eq_refl) as (_ & Hs & Hg & _).
  split; [exact Hs|exact Hg].
Defined.

(** *** Cells of the declared types *)

Lemma well_typed_iff (s : Snapshot) :
  well_typed s = true ↔ ∀ k, has_type k (get k s) = true.
Proof.
  unfold well_typed. rewrite forallb_forall. split.
  - intros H k. apply H, list_elem_of_In, elem_of_hook_order.
  - intros H k _. apply H.
Qed.

Lemma well_typed_initialize : well_typed initialize = true.
Proof. reflexivity. Qed.

Lemma well_typed_setValue (k : PreferenceKey) (v : jsval) (s : Snapshot) :
  has_type k v = true → well_typed s = true → well_typed (setValue k v s) = true.
Proof.
  rewrite !well_typed_iff. intros Hv Hs k'. rewrite get_setValue.
  destruct (decide (k = k')) as [<-|_]; [exact Hv|apply Hs].
Qed.

Lemma last_update_In (q : updates) (k : PreferenceKey) (v : jsval) :
  last_update q k = Some v → In (k, v) q.
Proof.
  induction q as [|[k0 v0] q IH]; [discriminate|]. simpl.
  destruct (last_update q k) as [v'|].
  - intros [= ->]. right. by apply IH.
  - destruct (decide (k0 = k)) as [->|]; [|discriminate]. intros [= ->]. by left.
Qed.

Lemma typed_updates_last (q : updates) (k : PreferenceKey) (v : jsval) :
  typed_updates q = true → last_update q k = Some v →
  has_type k v = true ∧ primitive v = true.
Proof.
  unfold typed_updates. rewrite forallb_forall.
  intros Hq Hl%last_update_In. apply Hq in Hl. by apply andb_true_iff in Hl.
Qed.

Lemma well_typed_flush (q : updates) (s : Snapshot) :
  typed_updates q = true → well_typed s = true → well_typed (flush q s) = true.
Proof.
  rewrite !well_typed_iff. intros Hq Hs k. rewrite get_flush.
  destruct (last_update q k) as [v|] eqn:E; [|apply Hs].
  by destruct (typed_updates_last q k v Hq E).
Qed.

(** Hydration keeps the declared types when every restored value has
    the declared type of its key. *)
Lemma well_typed_hydrate (w : Window) (s : Snapshot) :
  (∀ k v, hydrate_effect w (storageKey k) = Normal (Some v) → has_type k v = true) →
  well_typed s = true →
  ∃ s', hydrate w s = Normal s'
        ∧ well_typed s' = true
        ∧ ∀ k, get k s' = match hydrate_effect w (storageKey k) with
                          | Normal (Some v) => v
                          | _ => get k s
                          end.
Proof.
  intros Hrec Hs. destruct (hydrate_cell w s) as (s' & Hs' & Hcell).
  exists s'. split; [exact Hs'|]. split; [|exact Hcell].
  apply well_typed_iff. intros k. rewrite Hcell.
  destruct (hydrate_effect w (storageKey k)) as [[v|]|e] eqn:E;
    [by apply Hrec|by apply well_typed_iff..].
Qed.

Lemma typed_records_spec (w : Window) :
  typed_records w = true ↔
  ∀ k v, hydrate_effect w (storageKey k) = Normal (Some v) → has_type k v = true.
Proof.
  unfold typed_records. rewrite forallb_forall. split.
  - intros H k v E. specialize (H k (proj1 (list_elem_of_In _ _) (elem_of_hook_order k))).
    by rewrite E in H.
  - intros H k _. destruct (hydrate_effect w (storageKey k)) as [[v|]|e] eqn:E;
      [by apply H|reflexivity..].
Qed.

Lemma sound_records_spec (w : Window) :
  sound_records w = true ↔
  ∀ k v, hydrate_effect w (storageKey k) = Normal (Some v) →
         has_type k v = true ∧ exact_value v = true.
Proof.
  unfold sound_records. rewrite forallb_forall. split.
  - intros H k v E. specialize (H k (proj1 (list_elem_of_In _ _) (elem_of_hook_order k))).
    rewrite E in H. by apply andb_true_iff in H.
  - intros H k _. destruct (hydrate_effect w (storageKey k)) as [[v|]|e] eqn:E;
      [|reflexivity..].
    apply andb_true_iff. by apply H.
Qed.

(** C3, as the code has it: on a page whose cells have their declared
    types, a setter call with a string or a number of the declared type
    of the key, whose write completes, followed by a new mount on the
    storage it left, gives back the very value, unclamped. The persist
    effect runs because the value differs from the one the cell held.
    The other records that the new mount restores are asked to hold
    values of the declared types, so that the page renders; the cells
    before and after the restart then have their declared types. *)
Theorem set_restart_roundtrip
    (k : PreferenceKey) (v : jsval) (s : Snapshot) (ls : Storage) :
  well_typed s = true →
  has_type k v = true →
  primitive v = true →
  Object_is (get k s) v = false →
  setItem_throws ls (storageKey k) (JSON_stringify v) = false →
  getItem_throws ls (storageKey k) = false →
  (∀ k' v', k' ≠ k →
            hydrate_effect (Some ls) (storageKey k') = Normal (Some v') →
            has_type k' v' = true) →
  ∃ s1 w1 s2 w2,
    set k v (s, Some ls) = Normal (s1, w1)
    ∧ well_typed s1 = true
    ∧ read_item w1 (storageKey k) = Normal (Some (JSON_stringify v))
    ∧ mount w1 = Normal (s2, w2)
    ∧ well_typed s2 = true
    ∧ get k s2 = v.
Proof.
  intros Hs Hv Hprim Hch Hset Hget Hothers.
  destruct (persist_effect_Some ls (storageKey k) v) as (ls1 & Hp & Hg1 & _ & Hi1).
  rewrite Hset in Hi1.
  assert (Hread : read_item (Some ls1) (storageKey k)
                  = Normal (Some (JSON_stringify v))).
  { rewrite read_item_Some, Hg1, Hget, Hi1. by rewrite lookup_insert_eq. }
  assert (Hk : hydrate_effect (Some ls1) (storageKey k) = Normal (Some v))
    by (apply (hydrate_effect_parsed _ _ _ v Hread), JSON_roundtrip, Hprim).
  assert (Hrec : ∀ k' v', hydrate_effect (Some ls1) (storageKey k') = Normal (Some v') →
                          has_type k' v' = true).
  { intros k' v' E. destruct (decide (k' = k)) as [->|Hne].
    - rewrite Hk in E. by injection E as <-.
    - apply (Hothers k' v' Hne). rewrite <- E.
      unfold hydrate_effect. rewrite !read_item_Some, Hg1, Hi1.
      rewrite lookup_insert_ne; [reflexivity|].
      intros Heq. apply storageKey_inj in Heq. congruence. }
  destruct (mount_hydrate (Some ls1)) as (s2 & w2 & Hm & Hh).
  destruct (well_typed_hydrate (Some ls1) initialize Hrec well_typed_initialize)
    as (s2' & Hh' & Hty & Hcell).
  rewrite Hh in Hh'. injection Hh' as <-.
  exists (setValue k v s), (Some ls1), s2, w2. split_and!.
  - rewrite set_eq, Hch, Hp. reflexivity.
  - by apply well_typed_setValue.
  - exact Hread.
  - exact Hm.
  - exact Hty.
  - by rewrite Hcell, Hk.
Qed.

Lemma set_restart_roundtrip_witness :
  ∃ s1 w1 s2 w2,
    set kLineHeight (dec 175 2) (initialize, Some (storage_of [])) = Normal (s1, w1)
    ∧ mount w1 = Normal (s2, w2)
    ∧ get kLineHeight s2 = dec 175 2.
Proof.
  destruct (set_restart_roundtrip kLineHeight (dec 175 2) initialize (storage_of [])
              eq_refl eq_refl eq_refl eq_refl eq_refl eq_refl)
    as (s1 & w1 & s2 & w2 & H1 & _ & _ & H2 & _ & H3).
  { intros k' v' _ E. destruct k'; discriminate E. }
  exists s1, w1, s2, w2. split; [exact H1|]. split; [exact H2|exact H3].
Defined.

(** C3 as stated fails: a font size of 100 is written as [100], and the
    mount that follows reads 100 back, not the bound 26. *)
Lemma set_restart_counterexample :
  ∃ s1 w1 s2 w2,
    set kFontSize (dec 100 0) (initialize, Some (storage_of [])) = Normal (s1, w1)
    ∧ read_item w1 "readable:fontSize" = Normal (Some "100")
    ∧ mount w1 = Normal (s2, w2)
    ∧ get kFontSize s2 = dec 100 0
    ∧ clamp kFontSize (dec 100 0) = dec 26 0
    ∧ get kFontSize s2 ≠ clamp kFontSize (dec 100 0).
Proof.
  eexists _, _, _, _. split; [vm_compute; reflexivity|].
  split; [vm_compute; reflexivity|].
  split; [vm_compute; reflexivity|].
  split_and!; try reflexivity. discriminate.
Qed.

(** ** Presets *)

Lemma presets_keep_inputText (p : Preset) (s : Snapshot) :
  get kInputText (flush (presets p) s) = get kInputText s.
Proof. by destruct p. Qed.

(** C6: after the preset [Large print] the font size is 22, the line
    height 1.9 and the theme [high-contrast], and the pasted text is the
    one from before; no preset touches the pasted text. *)
Theorem apply_Large_print (s : Snapshot) (w : Window) :
  ∃ st', apply Large_print (s, w) = Normal st'
         ∧ get kFontSize st'.1 = dec 22 0
         ∧ get kLineHeight st'.1 = dec 19 1
         ∧ get kTheme st'.1 = JStr "high-contrast"
         ∧ get kInputText st'.1 = get kInputText s
         ∧ ∀ p, ∃ st'', apply p (s, w) = Normal st''
                        ∧ get kInputText st''.1 = get kInputText s.
Proof.
  destruct (dispatch_total (presets Large_print) s w) as (w' & Hd).
  exists (flush (presets Large_print) s, w'). split; [exact Hd|].
  split_and!; try reflexivity.
  intros p. destruct (dispatch_total (presets p) s w) as (w'' & Hd').
  exists (flush (presets p) s, w''). split; [exact Hd'|].
  apply presets_keep_inputText.
Qed.





(** ** The store after the first mount *)

Lemma Snapshot_ext (s s' : Snapshot) : (∀ k, get k s = get k s') → s = s'.
Proof.
  intros H. destruct s, s'.
  pose proof (H kTheme). pose proof (H kFontFamily). pose proof (H kFontSize).
  pose proof (H kLineHeight). pose proof (H kLetterSpacing).
  pose proof (H kWordSpacing). pose proof (H kMaxWidthCh).
  pose proof (H kParaSpacingEm). pose proof (H kInputText).
  simpl in *. congruence.
Qed.

(** C9: mounted on a storage without records, the cells are the
    initial ones: font size 18, line height 1.65, line length 68, theme
    [light]. *)
Theorem fresh_store_defaults (ls : Storage) :
  items ls = ∅ →
  ∃ st, mount (Some ls) = Normal st
        ∧ st.1 = initialize
        ∧ get kFontSize st.1 = dec 18 0
        ∧ get kLineHeight st.1 = dec 165 2
        ∧ get kMaxWidthCh st.1 = dec 68 0
        ∧ get kTheme st.1 = JStr "light".
Proof.
  intros Hempty. destruct (mount_hydrate (Some ls)) as (s' & w' & Hm & Hh).
  destruct (hydrate_cell (Some ls) initialize) as (s'' & Hh' & Hcell).
  rewrite Hh in Hh'. injection Hh' as <-.
  assert (Hs : s' = initialize).
  { apply Snapshot_ext. intros k. rewrite Hcell.
    unfold hydrate_effect. rewrite read_item_Some, Hempty, lookup_empty.
    by destruct (getItem_throws ls (storageKey k)). }
  exists (s', w'). split; [exact Hm|]. simpl. rewrite Hs. by split_and!.
Qed.

Lemma fresh_store_defaults_witness :
  ∃ st, mount (Some (storage_of [])) = Normal st
        ∧ get kFontSize st.1 = dec 18 0
        ∧ get kTheme st.1 = JStr "light".
Proof.
  destruct (fresh_store_defaults (storage_of []) eq_refl)
    as (st & Hm & _ & Hfs & _ & _ & Hth).
  exists st. split; [exact Hm|]. split; [exact Hfs|exact Hth].
Defined.

(** ** Projection *)

Lemma Number_toString_nonempty (x : number) : ∃ c r, Number_toString x = c :: r.
Proof.
  destruct x as [m sc]. unfold Number_toString. cbn [mant scale]. cbv zeta.
  destruct (Z.eqb_spec m 0) as [|Hm]; [by eauto|].
  destruct (m <? 0); [by eauto|]. cbn [app].
  set (D := digits (Z.abs m)). set (s := drop_trailing_zeros D).
  assert (Hs : ∃ d ds, s = d :: ds).
  { destruct (drop_trailing_zeros_spec D) as (j & Hj & _). fold s in Hj.
    destruct s as [|d ds]; [|by eauto]. exfalso.
    pose proof (of_digits_digits (Z.abs m) ltac:(lia)) as Hv. fold D in Hv.
    rewrite Hj in Hv. simpl in Hv. rewrite of_digits_zeros in Hv. lia. }
  destruct Hs as (d & ds & ->).
  repeat match goal with
         | |- context [if ?b then _ else _] => destruct b
         end;
    first [ by eauto
          | by destruct (chars (take _ _)); simpl; eauto
          | by destruct ds; eauto ].
Qed.

Lemma ToString_JNum (n : number) :
  ToString (JNum n) = Normal (string_of_list_ascii (Number_toString n)).
Proof. reflexivity. Qed.

Lemma ToString_JNum_nonempty (n : number) :
  ∃ x, ToString (JNum n) = Normal x ∧ x ≠ "".
Proof.
  rewrite ToString_JNum. eexists. split; [reflexivity|].
  destruct (Number_toString_nonempty n) as (c & r & ->). discriminate.
Qed.

Lemma setProperty_nonempty (name value : string) (d : Document) :
  value ≠ "" →
  setProperty name value d = mkDocument (attributes d) (<[name := value]> (style d)).
Proof.
  intros Hv. unfold setProperty. by destruct (String.eqb_spec value "").
Qed.

Lemma append_unit_nonempty (x : string) (c : ascii) (u : string) :
  x +:+ String c u ≠ "".
Proof. by destruct x. Qed.

Lemma well_typed_cells (s : Snapshot) :
  well_typed s = true → ∀ k, has_type k (get k s) = true.
Proof.
  unfold well_typed. rewrite forallb_forall.
  intros H k. apply H, list_elem_of_In, elem_of_hook_order.
Qed.

Lemma has_type_number (k : PreferenceKey) (v : jsval) :
  has_type k v = true → k ≠ kTheme → k ≠ kFontFamily → k ≠ kInputText →
  ∃ n, v = JNum n.
Proof. destruct k, v; try discriminate; try congruence; eauto. Qed.

(** C8: on a snapshot whose cells have their declared types the two
    projection effects complete normally; they set the attribute
    [data-theme] to the theme and the seven custom properties to the
    font stack chosen by the font family, the font size followed by [px],
    the line height as its bare text, the letter spacing followed by
    [em], the word spacing followed by [px], the line length followed by
    [ch] and the paragraph spacing followed by [em]. No other custom
    property is touched, so the theme is no style variable; running the
    effects again on the result changes nothing. *)
Theorem project_mapping (s : Snapshot) (d : Document) :
  well_typed s = true →
  ∃ d' t x1 x2 x3 x4 x5 x6,
    project s d = Normal d'
    ∧ theme s = JStr t
    ∧ ToString (fontSize s) = Normal x1
    ∧ ToString (lineHeight s) = Normal x2
    ∧ ToString (letterSpacing s) = Normal x3
    ∧ ToString (wordSpacing s) = Normal x4
    ∧ ToString (maxWidthCh s) = Normal x5
    ∧ ToString (paraSpacingEm s) = Normal x6
    ∧ attributes d' = <["data-theme" := t]> (attributes d)
    ∧ (fontFamily s = JStr "system"
       ∧ style d' !! "--reader-font" = Some "var(--font-sans)"
       ∨ fontFamily s = JStr "atkinson"
         ∧ style d' !! "--reader-font" = Some "var(--font-atkinson), var(--font-sans)")
    ∧ style d' !! "--reader-font-size" = Some (x1 +:+ "px")
    ∧ style d' !! "--reader-line-height" = Some x2
    ∧ style d' !! "--reader-letter-spacing" = Some (x3 +:+ "em")
    ∧ style d' !! "--reader-word-spacing" = Some (x4 +:+ "px")
    ∧ style d' !! "--reader-max-width" = Some (x5 +:+ "ch")
    ∧ style d' !! "--reader-paragraph-spacing" = Some (x6 +:+ "em")
    ∧ (∀ name, name ∉ reader_variables → style d' !! name = style d !! name)
    ∧ project s d' = Normal d'.
Proof.
  intros Hwt. pose proof (well_typed_cells s Hwt) as Hty.
  destruct (has_type_number _ _ (Hty kFontSize)) as [n1 H1]; try discriminate.
  destruct (has_type_number _ _ (Hty kLineHeight)) as [n2 H2]; try discriminate.
  destruct (has_type_number _ _ (Hty kLetterSpacing)) as [n3 H3]; try discriminate.
  destruct (has_type_number _ _ (Hty kWordSpacing)) as [n4 H4]; try discriminate.
  destruct (has_type_number _ _ (Hty kMaxWidthCh)) as [n5 H5]; try discriminate.
  destruct (has_type_number _ _ (Hty kParaSpacingEm)) as [n6 H6]; try discriminate.
  pose proof (Hty kTheme) as Ht. pose proof (Hty kFontFamily) as Hf.
  simpl in H1, H2, H3, H4, H5, H6, Ht, Hf.
  destruct (theme s) as [| | |t| |] eqn:Eth; try discriminate Ht.
  destruct (ToString_JNum_nonempty n1) as (x1 & Hx1 & Hne1).
  destruct (ToString_JNum_nonempty n2) as (x2 & Hx2 & Hne2).
  destruct (ToString_JNum_nonempty n3) as (x3 & Hx3 & Hne3).
  destruct (ToString_JNum_nonempty n4) as (x4 & Hx4 & Hne4).
  destruct (ToString_JNum_nonempty n5) as (x5 & Hx5 & Hne5).
  destruct (ToString_JNum_nonempty n6) as (x6 & Hx6 & Hne6).
  set (font := if strict_eq_str (fontFamily s) "atkinson"
               then "var(--font-atkinson), var(--font-sans)"
               else "var(--font-sans)").
  assert (Hfont : font ≠ "") by (subst font; by destruct (strict_eq_str _ _)).
  assert (Hproj : ∀ d0, project s d0 =
    Normal (mkDocument (<["data-theme" := t]> (attributes d0))
      (<["--reader-paragraph-spacing" := x6 +:+ "em"]>
        (<["--reader-max-width" := x5 +:+ "ch"]>
          (<["--reader-word-spacing" := x4 +:+ "px"]>
            (<["--reader-letter-spacing" := x3 +:+ "em"]>
              (<["--reader-line-height" := x2]>
                (<["--reader-font-size" := x1 +:+ "px"]>
                  (<["--reader-font" := font]> (style d0)))))))))).
  { intros d0. unfold project, theme_effect, style_effect.
    rewrite Eth, H1, H2, H3, H4, H5, H6, Hx1, Hx2, Hx3, Hx4, Hx5, Hx6.
    fold font. cbn [mbind completion_bind ToString ToString_chars].
    rewrite string_of_list_ascii_of_string.
    rewrite !setProperty_nonempty by (assumption || apply append_unit_nonempty).
    reflexivity. }
  eexists _, t, x1, x2, x3, x4, x5, x6.
  split; [apply Hproj|]. split; [reflexivity|].
  rewrite H1, H2, H3, H4, H5, H6.
  do 6 (split; [assumption|]).
  cbn [attributes style]. split; [reflexivity|].
  split.
  { destruct (fontFamily s) as [| | |f| |] eqn:Ef; try discriminate Hf.
    apply orb_true_iff in Hf as [->%String.eqb_eq| ->%String.eqb_eq];
      [left|right]; (split; [reflexivity|]); subst font; try rewrite Ef; by simplify_map_eq. }
  do 6 (split; [by simplify_map_eq|]).
  split.
  { intros name Hname. unfold reader_variables in Hname.
    rewrite !not_elem_of_cons in Hname.
    destruct Hname as (? & ? & ? & ? & ? & ? & ? & _).
    by rewrite !lookup_insert_ne. }
  rewrite Hproj. cbn [attributes style]. f_equal. f_equal.
  - by rewrite insert_insert_eq.
  - apply map_eq. intros name.
    destruct (decide (name ∈ reader_variables)) as [Hin|Hout].
    + unfold reader_variables in Hin. rewrite !elem_of_cons in Hin.
      destruct Hin as [->|[->|[->|[->|[->|[->|[->|Hnil]]]]]]];
        [by simplify_map_eq..|by apply elem_of_nil in Hnil].
    + unfold reader_variables in Hout. rewrite !not_elem_of_cons in Hout.
      destruct Hout as (? & ? & ? & ? & ? & ? & ? & _).
      by rewrite !lookup_insert_ne.
Qed.

Lemma project_mapping_witness :
  ∃ d', project initialize (mkDocument ∅ ∅) = Normal d'
        ∧ attributes d' !! "data-theme" = Some "light"
        ∧ style d' !! "--reader-font-size" = Some "18px"
        ∧ style d' !! "--reader-line-height" = Some "1.65".
Proof.
  destruct (project_mapping initialize (mkDocument ∅ ∅) eq_refl)
    as (d' & t & x1 & x2 & x3 & x4 & x5 & x6 & Hp & Ht & H1 & H2 & _ & _ & _ & _
        & Ha & _ & Hfs & Hlh & _).
  exists d'. split; [exact Hp|].
  injection Ht as <-. injection H1 as <-. injection H2 as <-.
  rewrite Ha, Hfs, Hlh. split; [apply lookup_insert_eq|]. split; reflexivity.
Defined.

(** * Further properties of the page *)

(** ** What the effects write *)

Lemma Object_is_eq (a b : jsval) : Object_is a b = true → a = b.
Proof.
  destruct a as [|x|x|x|x|x], b as [|y|y|y|y|y]; simpl; try discriminate.
  - reflexivity.
  - intros H. f_equal. by apply Bool.eqb_prop.
  - unfold Num_eqb. intros [Hm Hs]%andb_true_iff.
    apply Z.eqb_eq in Hm. apply Nat.eqb_eq in Hs.
    destruct x, y. simpl in *. by subst.
  - intros H%String.eqb_eq. by subst.
Qed.

Lemma Object_is_refl (v : jsval) : is_object v = false → Object_is v v = true.
Proof.
  destruct v as [|x|x|x|x|x]; simpl; try discriminate; intros _.
  - reflexivity.
  - by destruct x.
  - unfold Num_eqb. by rewrite Z.eqb_refl, Nat.eqb_refl.
  - apply String.eqb_refl.
Qed.

(** A cell whose persist effect does not run holds, in the next render,
    the value it held. *)
Lemma unchanged_get (q : updates) (s : Snapshot) (k : PreferenceKey) :
  changed q s k = false → get k (flush q s) = get k s.
Proof.
  unfold changed. rewrite get_flush.
  destruct (last_update q k) as [v|]; [|reflexivity]. simpl.
  intros H%negb_false_iff. symmetry. by apply Object_is_eq.
Qed.

Lemma last_update_None (q : updates) (k : PreferenceKey) :
  k ∉ q.*1 → last_update q k = None.
Proof.
  induction q as [|[k0 v0] q IH]; [reflexivity|]. simpl.
  rewrite not_elem_of_cons. intros [Hne Hq]. rewrite (IH Hq).
  by destruct (decide (k0 = k)).
Qed.

(** The commit of the hooks [l] leaves every item alone that is not the
    record of a hook of [l] whose dependency changed. *)
Lemma commit_frame (q : updates) (s : Snapshot) (l : list PreferenceKey) (ls : Storage) :
  ∃ ls',
    foldM (commit_step q s) l (Some ls) = Normal (Some ls')
    ∧ ∀ key, (∀ k, k ∈ l → changed q s k = true → key ≠ storageKey k) →
             items ls' !! key = items ls !! key.
Proof.
  revert ls. induction l as [|k0 l IH]; intros ls.
  - exists ls. split; [reflexivity|]. reflexivity.
  - rewrite foldM_cons, commit_step_eq.
    destruct (changed q s k0) eqn:Hch.
    + destruct (persist_effect_Some ls (storageKey k0) (get k0 (flush q s)))
        as (ls1 & -> & _ & _ & Hi). simpl.
      destruct (IH ls1) as (ls' & Hf & Hframe).
      exists ls'. split; [exact Hf|]. intros key Hkey.
      rewrite Hframe by (intros k Hk; apply Hkey; by right).
      rewrite Hi. destruct (setItem_throws ls _ _); [reflexivity|].
      apply lookup_insert_ne. intros Heq.
      by apply (Hkey k0 (list_elem_of_here _ _) Hch).
    + destruct (IH ls) as (ls' & Hf & Hframe).
      exists ls'. split; [exact Hf|]. intros key Hkey.
      apply Hframe. intros k Hk. apply Hkey. by right.
Qed.

(** The storage after a batch of setter calls, item by item. *)
Lemma dispatch_storage (q : updates) (s : Snapshot) (ls : Storage) :
  ∃ ls',
    dispatch q (s, Some ls) = Normal (flush q s, Some ls')
    ∧ getItem_throws ls' = getItem_throws ls
    ∧ setItem_throws ls' = setItem_throws ls
    ∧ (∀ k, items ls' !! storageKey k =
            if changed q s k
               && negb (setItem_throws ls (storageKey k)
                          (JSON_stringify (get k (flush q s))))
            then Some (JSON_stringify (get k (flush q s)))
            else items ls !! storageKey k)
    ∧ ∀ key, (∀ k, changed q s k = true → key ≠ storageKey k) →
             items ls' !! key = items ls !! key.
Proof.
  destruct (commit_Some q s ls) as (ls' & Hc & Hg & Hs & Hi).
  destruct (commit_frame q s hook_order ls) as (ls'' & Hc' & Hframe).
  unfold commit in Hc. rewrite Hc in Hc'. injection Hc' as <-.
  exists ls'. split_and!; try done.
  - unfold dispatch. cbn [fst snd]. unfold commit. by rewrite Hc.
  - intros key Hkey. apply Hframe. intros k _. apply Hkey.
Qed.

(** The storage after the first commit of the hooks [l]. *)
Lemma first_commit_items (l : list PreferenceKey) (q0 : updates) (ls : Storage) :
  NoDup l →
  ∃ q ls',
    foldM first_commit_step l (q0, Some ls) = Normal (q, Some ls')
    ∧ (∀ k, k ∈ l →
            items ls' !! storageKey k =
            if setItem_throws ls (storageKey k) (JSON_stringify (initialValue k))
            then items ls !! storageKey k
            else Some (JSON_stringify (initialValue k)))
    ∧ ∀ key, (∀ k, k ∈ l → key ≠ storageKey k) →
             items ls' !! key = items ls !! key.
Proof.
  revert q0 ls. induction l as [|k0 l IH]; intros q0 ls Hnd.
  - exists q0, ls. split; [reflexivity|]. split; [|reflexivity].
    intros k Hk. by apply elem_of_nil in Hk.
  - apply NoDup_cons in Hnd as [Hk0 Hnd].
    rewrite foldM_cons, first_commit_step_eq.
    destruct (hydrate_effect_total (Some ls) (storageKey k0)) as [u ->]. simpl.
    destruct (persist_effect_Some ls (storageKey k0) (initialValue k0))
      as (ls1 & -> & _ & Hs1 & Hi1). simpl.
    destruct (IH (enqueue q0 k0 u) ls1 Hnd) as (q & ls' & Hf & Hrec & Hframe).
    exists q, ls'. split; [exact Hf|]. split.
    + intros k [->|Hk]%elem_of_cons.
      * rewrite Hframe, Hi1.
        -- destruct (setItem_throws ls _ _); [reflexivity|apply lookup_insert_eq].
        -- intros k Hk Heq. apply storageKey_inj in Heq. by subst.
      * rewrite (Hrec k Hk), Hs1, Hi1.
        destruct (setItem_throws ls (storageKey k) _); [|reflexivity].
        destruct (setItem_throws ls (storageKey k0) _); [reflexivity|].
        apply lookup_insert_ne. intros Heq. apply storageKey_inj in Heq. by subst.
    + intros key Hkey.
      rewrite Hframe by (intros k Hk; apply Hkey; by right).
      rewrite Hi1. destruct (setItem_throws ls _ _); [reflexivity|].
      apply lookup_insert_ne. intros Heq.
      by apply (Hkey k0 (list_elem_of_here _ _)).
Qed.

(** The whole mount, on the storage as it was found: the cells are the
    hydrated ones and the storage is the one after both commits. *)
Lemma mount_storage (ls : Storage) :
  ∃ q ls1 s' ls',
    first_commit (Some ls) = Normal (q, Some ls1)
    ∧ mount (Some ls) = Normal (s', Some ls')
    ∧ s' = flush q initialize
    ∧ hydrate (Some ls) initialize = Normal s'
    ∧ dispatch q (initialize, Some ls1) = Normal (s', Some ls')
    ∧ getItem_throws ls1 = getItem_throws ls
    ∧ setItem_throws ls1 = setItem_throws ls.
Proof.
  destruct (first_commit_queue ls ls hook_order [] NoDup_hook_order)
    as (q & ls1 & Hfc & Hq & Hg & Hs); [done..|].
  destruct (dispatch_storage q initialize ls1) as (ls' & Hd & _).
  exists q, ls1, (flush q initialize), ls'. split_and!; try done.
  - unfold mount, first_commit. rewrite Hfc. simpl. exact Hd.
  - unfold hydrate. by rewrite Hq.
Qed.

Lemma get_initialize (k : PreferenceKey) : get k initialize = initialValue k.
Proof. by destruct k. Qed.

Lemma setValue_get (k : PreferenceKey) (s : Snapshot) : setValue k (get k s) s = s.
Proof. by destruct k, s. Qed.

Lemma session_nil (st : Snapshot * Window) : session [] st = Normal st.
Proof. reflexivity. Qed.

Lemma session_cons (q : updates) (qs : list updates) (st : Snapshot * Window) :
  session (q :: qs) st = dispatch q st ≫= session qs.
Proof. reflexivity. Qed.

(** A batch of setter calls keeps the records in step with the cells,
    as long as no write throws. *)
Lemma synced_after_dispatch (q : updates) (s : Snapshot) (ls : Storage) :
  writable ls → synced s ls →
  ∃ ls', dispatch q (s, Some ls) = Normal (flush q s, Some ls')
         ∧ getItem_throws ls' = getItem_throws ls
         ∧ setItem_throws ls' = setItem_throws ls
         ∧ synced (flush q s) ls'.
Proof.
  intros Hw Hsync.
  destruct (dispatch_storage q s ls) as (ls' & Hd & Hg & Hs & Hi & _).
  exists ls'. split_and!; try done.
  intros k. rewrite Hi, Hw, andb_true_r.
  destruct (changed q s k) eqn:Hch; [reflexivity|].
  by rewrite (unchanged_get q s k Hch), Hsync.
Qed.

Lemma exact_primitive (v : jsval) : exact_value v = true → primitive v = true.
Proof.
  destruct v as [|b|n|t|l|props]; simpl; try done.
  unfold js_exact. intros H. apply andb_true_iff in H as [H _].
  by apply andb_true_iff in H as [H _].
Qed.


Lemma typed_updates_presets (p : Preset) : typed_updates (presets p) = true.
Proof. by destruct p. Qed.

Lemma session_typed (qs : list updates) (s : Snapshot) (w : Window) :
  forallb typed_updates qs = true → well_typed s = true →
  ∃ s' w', session qs (s, w) = Normal (s', w') ∧ well_typed s' = true.
Proof.
  revert s w. induction qs as [|q qs IH]; intros s w Hqs Hs.
  - exists s, w. by rewrite session_nil.
  - apply andb_true_iff in Hqs as [Hq Hqs]. rewrite session_cons.
    destruct (dispatch_total q s w) as (w' & ->). simpl.
    apply IH; [exact Hqs|by apply well_typed_flush].
Qed.

(** X1: the storage cannot end the page. On a page whose cells have
    their declared types, whatever the storage holds and whichever of
    its calls throw, a setter call with a value of the declared type, a
    preset and any sequence of such handlers complete normally and leave
    cells of the declared types. Mounting completes normally, with cells
    of the declared types, on every storage whose restorable records
    hold values of the declared types, whichever of its calls throw. *)
Theorem handlers_complete (w : Window) (s : Snapshot) :
  well_typed s = true →
  (typed_records w = true →
   ∃ st, mount w = Normal st ∧ well_typed st.1 = true)
  ∧ (∀ k v, has_type k v = true →
            ∃ st, set k v (s, w) = Normal st ∧ well_typed st.1 = true)
  ∧ (∀ p, ∃ st, apply p (s, w) = Normal st ∧ well_typed st.1 = true)
  ∧ (∀ qs, forallb typed_updates qs = true →
           ∃ st, session qs (s, w) = Normal st ∧ well_typed st.1 = true).
Proof.
  intros Hs. split_and!.
  - intros Hrec0. pose proof (proj1 (typed_records_spec _) Hrec0) as Hrec.
    destruct (mount_hydrate w) as (s' & w' & Hm & Hh).
    destruct (well_typed_hydrate w initialize Hrec well_typed_initialize)
      as (s'' & Hh' & Hty & _).
    rewrite Hh in Hh'. injection Hh' as <-.
    exists (s', w'). split; [exact Hm|exact Hty].
  - intros k v Hv. destruct (dispatch_total [(k, v)] s w) as (w' & H).
    exists (setValue k v s, w'). split; [exact H|]. by apply well_typed_setValue.
  - intros p. destruct (dispatch_total (presets p) s w) as (w' & H).
    exists (flush (presets p) s, w'). split; [exact H|].
    apply well_typed_flush; [apply typed_updates_presets|exact Hs].
  - intros qs Hqs. destruct (session_typed qs s w Hqs Hs) as (s' & w' & H & Hty).
    exists (s', w'). split; [exact H|exact Hty].
Qed.

Lemma handlers_complete_witness :
  (∃ st, mount (Some (mkStorage {["readable:theme" := "{oops"]}
                        (λ key, String.eqb key "readable:font") (λ _ _, true)))
         = Normal st ∧ well_typed st.1 = true)
  ∧ ∃ st, set kWordSpacing (dec 4 0) (initialize, Some full_storage) = Normal st
          ∧ well_typed st.1 = true.
Proof.
  split.
  - destruct (handlers_complete
                (Some (mkStorage {["readable:theme" := "{oops"]}
                         (λ key, String.eqb key "readable:font") (λ _ _, true)))
                initialize eq_refl) as (Hm & _).
    apply Hm. vm_compute. reflexivity.
  - destruct (handlers_complete (Some full_storage) initialize eq_refl)
      as (_ & Hset & _).
    apply Hset. reflexivity.
Defined.

Lemma Storage_eq (a b : Storage) :
  items a = items b → getItem_throws a = getItem_throws b →
  setItem_throws a = setItem_throws b → a = b.
Proof. destruct a, b. simpl. by intros -> -> ->. Qed.

Lemma storageKey_cases (key : string) :
  (∃ k, key = storageKey k) ∨ (∀ k, key ≠ storageKey k).
Proof.
  destruct (decide (key ∈ storageKey <$> hook_order)) as [Hin|Hout].
  - left. apply list_elem_of_fmap in Hin as (k & -> & _). eauto.
  - right. intros k ->. apply Hout, list_elem_of_fmap.
    exists k. split; [reflexivity|apply elem_of_hook_order].
Qed.

(** X2: with a storage that throws on every read and every write of the
    page's records, and equally without a [window], the page mounts
    with its initial values and the storage is left exactly as it was. *)
Theorem mount_broken_storage (ls : Storage) :
  (∀ k, getItem_throws ls (storageKey k) = true) →
  (∀ k v, setItem_throws ls (storageKey k) v = true) →
  mount (Some ls) = Normal (initialize, Some ls)
  ∧ mount None = Normal (initialize, None).
Proof.
  intros Hr Hw. split; [|reflexivity].
  destruct (mount_storage ls) as (q & ls1 & s' & ls' & Hfc & Hm & _ & Hh & Hd & Hg1 & Hs1).
  destruct (first_commit_items hook_order [] ls NoDup_hook_order)
    as (q' & ls1' & Hfc' & Hrec & Hframe).
  unfold first_commit in Hfc. rewrite Hfc in Hfc'. injection Hfc' as <- <-.
  destruct (dispatch_storage q initialize ls1) as (ls2 & Hd' & Hg2 & Hs2 & Hi2 & Hframe2).
  rewrite Hd in Hd'. injection Hd' as _ <-.
  rewrite Hm. f_equal. f_equal.
  - destruct (hydrate_cell (Some ls) initialize) as (s'' & Hh' & Hcell).
    rewrite Hh in Hh'. injection Hh' as <-.
    apply Snapshot_ext. intros k. rewrite Hcell.
    unfold hydrate_effect. by rewrite read_item_Some, Hr.
  - f_equal. apply Storage_eq; [|congruence..].
    apply map_eq. intros key.
    destruct (storageKey_cases key) as [[k ->]|Hforeign].
    + rewrite Hi2, Hs1, Hw, andb_false_r.
      rewrite (Hrec k (elem_of_hook_order k)). by rewrite Hw.
    + rewrite Hframe2 by (intros k _; apply Hforeign).
      apply Hframe. intros k _. apply Hforeign.
Qed.

(** A storage of which every call throws. *)
Lemma mount_broken_storage_witness :
  mount (Some (mkStorage {["readable:fontSize" := "20"]} (λ _, true) (λ _ _, true)))
  = Normal (initialize,
            Some (mkStorage {["readable:fontSize" := "20"]} (λ _, true) (λ _ _, true))).
Proof.
  apply (mount_broken_storage
           (mkStorage {["readable:fontSize" := "20"]} (λ _, true) (λ _ _, true)));
    intros; reflexivity.
Defined.

(** After a mount without a throwing write every record is the
    serialised value of its cell. *)
Lemma mount_synced (ls : Storage) :
  writable ls →
  ∃ s' ls', mount (Some ls) = Normal (s', Some ls')
            ∧ hydrate (Some ls) initialize = Normal s'
            ∧ synced s' ls'
            ∧ getItem_throws ls' = getItem_throws ls
            ∧ setItem_throws ls' = setItem_throws ls
            ∧ ∀ key, (∀ k, key ≠ storageKey k) → items ls' !! key = items ls !! key.
Proof.
  intros Hw.
  destruct (mount_storage ls) as (q & ls1 & s' & ls' & Hfc & Hm & Hs' & Hh & Hd & Hg1 & Hs1).
  destruct (first_commit_items hook_order [] ls NoDup_hook_order)
    as (q' & ls1' & Hfc' & Hrec & Hframe).
  unfold first_commit in Hfc. rewrite Hfc in Hfc'. injection Hfc' as <- <-.
  assert (Hw1 : writable ls1) by (intros k v; by rewrite Hs1).
  assert (Hsync1 : synced initialize ls1).
  { intros k. rewrite (Hrec k (elem_of_hook_order k)), Hw. by rewrite get_initialize. }
  destruct (synced_after_dispatch q initialize ls1 Hw1 Hsync1)
    as (ls2 & Hd' & Hg2 & Hs2 & Hsync2).
  destruct (dispatch_storage q initialize ls1) as (ls3 & Hd3 & _ & _ & _ & Hframe3).
  rewrite Hd in Hd'. injection Hd' as Hs'' <-.
  rewrite Hd in Hd3. injection Hd3 as _ <-.
  exists s', ls'. split_and!; try done.
  - by rewrite Hs'.
  - congruence.
  - congruence.
  - intros key Hkey. rewrite Hframe3 by (intros k _; apply Hkey).
    apply Hframe. intros k _. apply Hkey.
Qed.

(** X3: when no write throws and every record that can be restored
    holds a value of the declared type of its key (a number of at most
    fifteen significant digits), mounting leaves cells of the declared
    types and every record of the page equal to the serialised value of
    its cell; a record that was absent, unreadable or unparseable is
    thereby replaced by the serialised initial value. *)
Theorem mount_synchronises (ls : Storage) :
  writable ls → sound_records (Some ls) = true →
  ∃ s' ls', mount (Some ls) = Normal (s', Some ls')
            ∧ well_typed s' = true
            ∧ synced s' ls'
            ∧ ∀ k, hydrate_effect (Some ls) (storageKey k) = Normal None →
                   items ls' !! storageKey k = Some (JSON_stringify (initialValue k)).
Proof.
  intros Hw Hrec0. pose proof (proj1 (sound_records_spec _) Hrec0) as Hrec.
  destruct (mount_synced ls Hw) as (s' & ls' & Hm & Hh & Hsync & _).
  destruct (well_typed_hydrate (Some ls) initialize) as (s'' & Hh' & Hty & Hcell);
    [intros k v E; by destruct (Hrec k v E)|reflexivity|].
  rewrite Hh in Hh'. injection Hh' as <-.
  exists s', ls'. split; [exact Hm|]. split; [exact Hty|]. split; [exact Hsync|].
  intros k Hnone. rewrite Hsync. f_equal. f_equal. rewrite Hcell, Hnone.
  apply get_initialize.
Qed.

Lemma mount_synchronises_witness :
  ∃ s' ls', mount (Some (storage_of [("readable:fontSize", "{oops")]))
            = Normal (s', Some ls')
            ∧ items ls' !! "readable:fontSize" = Some "18"
            ∧ items ls' !! "readable:theme" = Some (JSON_stringify (JStr "light")).
Proof.
  destruct (mount_synchronises (storage_of [("readable:fontSize", "{oops")]))
    as (s' & ls' & Hm & _ & _ & Hheal).
  { intros k v. reflexivity. }
  { reflexivity. }
  exists s', ls'. split; [exact Hm|]. split.
  - apply (Hheal kFontSize). reflexivity.
  - apply (Hheal kTheme). reflexivity.
Defined.

Lemma session_synced (qs : list updates) (s : Snapshot) (ls : Storage) :
  writable ls → synced s ls →
  ∃ s' ls', session qs (s, Some ls) = Normal (s', Some ls')
            ∧ synced s' ls'
            ∧ getItem_throws ls' = getItem_throws ls
            ∧ setItem_throws ls' = setItem_throws ls.
Proof.
  revert s ls. induction qs as [|q qs IH]; intros s ls Hw Hsync.
  - exists s, ls. by rewrite session_nil.
  - rewrite session_cons.
    destruct (synced_after_dispatch q s ls Hw Hsync) as (ls1 & -> & Hg & Hs & Hsync1).
    simpl.
    destruct (IH (flush q s) ls1) as (s' & ls' & Hr & Hsync' & Hg' & Hs');
      [intros k v; by rewrite Hs|exact Hsync1|].
    exists s', ls'. split_and!; [exact Hr|exact Hsync'|congruence..].
Qed.

(** X4: the records stay in step with the cells. From a state where
    every record is the serialised value of its cell, and with a storage
    whose writes do not throw, a setter call, a preset and any sequence
    of handlers end in such a state again. *)
Theorem handlers_keep_sync (s : Snapshot) (ls : Storage) :
  writable ls → synced s ls →
  (∀ k v, ∃ ls', set k v (s, Some ls) = Normal (setValue k v s, Some ls')
                 ∧ synced (setValue k v s) ls')
  ∧ (∀ p, ∃ s' ls', apply p (s, Some ls) = Normal (s', Some ls') ∧ synced s' ls')
  ∧ (∀ qs, ∃ s' ls', session qs (s, Some ls) = Normal (s', Some ls') ∧ synced s' ls').
Proof.
  intros Hw Hsync. split_and!.
  - intros k v.
    destruct (synced_after_dispatch [(k, v)] s ls Hw Hsync) as (ls' & Hd & _ & _ & Hs').
    exists ls'. split; [exact Hd|exact Hs'].
  - intros p.
    destruct (synced_after_dispatch (presets p) s ls Hw Hsync) as (ls' & Hd & _ & _ & Hs').
    exists (flush (presets p) s), ls'. split; [exact Hd|exact Hs'].
  - intros qs. destruct (session_synced qs s ls Hw Hsync) as (s' & ls' & Hr & Hs' & _).
    exists s', ls'. split; [exact Hr|exact Hs'].
Qed.

Lemma handlers_keep_sync_witness :
  ∃ s' ls',
    session [[(kFontSize, dec 21 0)]; presets Reader; [(kTheme, JStr "dark")]]
      (initialize, Some (storage_of (map (λ k, (storageKey k, JSON_stringify (initialValue k)))
                                         hook_order)))
    = Normal (s', Some ls')
    ∧ items ls' !! "readable:theme" = Some (JSON_stringify (get kTheme s'))
    ∧ items ls' !! "readable:fontSize" = Some (JSON_stringify (get kFontSize s')).
Proof.
  destruct (handlers_keep_sync initialize
              (storage_of (map (λ k, (storageKey k, JSON_stringify (initialValue k)))
                               hook_order)))
    as (_ & _ & Hses).
  { intros k v. reflexivity. }
  { intros k. destruct k; reflexivity. }
  destruct (Hses [[(kFontSize, dec 21 0)]; presets Reader; [(kTheme, JStr "dark")]])
    as (s' & ls' & Hr & Hsync).
  exists s', ls'. split; [exact Hr|]. split; [apply (Hsync kTheme)|apply (Hsync kFontSize)].
Defined.

(** Mounting on records that are the serialised values of primitive
    cells gives these cells. *)
Lemma mount_cells_of_synced (s : Snapshot) (ls : Storage) :
  synced s ls → readable ls → (∀ k, primitive (get k s) = true) →
  hydrate (Some ls) initialize = Normal s.
Proof.
  intros Hsync Hread Hprim.
  destruct (hydrate_cell (Some ls) initialize) as (s' & Hh & Hcell).
  assert (s' = s) as ->; [|exact Hh].
  apply Snapshot_ext. intros k. rewrite Hcell.
  rewrite (hydrate_effect_parsed (Some ls) _ (JSON_stringify (get k s)) (get k s)).
  - reflexivity.
  - by rewrite read_item_Some, Hread, Hsync.
  - by apply JSON_roundtrip.
Qed.

(** X5: a restart restores the whole snapshot and changes nothing. When
    the cells have their declared types (numbers of at most fifteen
    significant digits), every record is the serialised value of its
    cell, and reads and writes of the records do not throw, mounting the
    page on that storage gives back exactly these cells and leaves the
    storage exactly as it was. *)
Theorem mount_fixed_point (s : Snapshot) (ls : Storage) :
  well_typed s = true → (∀ k, exact_value (get k s) = true) →
  synced s ls → readable ls → writable ls →
  mount (Some ls) = Normal (s, Some ls).
Proof.
  intros _ Hex Hsync Hread Hw.
  assert (Hprim : ∀ k, primitive (get k s) = true)
    by (intros k; apply exact_primitive, Hex).
  destruct (mount_synced ls Hw) as (s' & ls' & Hm & Hh & Hsync' & Hg & Hs & Hframe).
  rewrite (mount_cells_of_synced s ls Hsync Hread Hprim) in Hh. injection Hh as <-.
  rewrite Hm. f_equal. f_equal. f_equal.
  apply Storage_eq; [|exact Hg|exact Hs].
  apply map_eq. intros key.
  destruct (storageKey_cases key) as [[k ->]|Hforeign].
  - by rewrite Hsync', Hsync.
  - by apply Hframe.
Qed.

Lemma mount_fixed_point_witness :
  mount (Some (storage_of (map (λ k, (storageKey k,
                                      JSON_stringify (get k (flush (presets Large_print) initialize))))
                               hook_order)))
  = Normal (flush (presets Large_print) initialize,
            Some (storage_of (map (λ k, (storageKey k,
                                         JSON_stringify (get k (flush (presets Large_print) initialize))))
                                  hook_order))).
Proof.
  apply mount_fixed_point.
  - reflexivity.
  - intros k. destruct k; reflexivity.
  - intros k. destruct k; reflexivity.
  - intros k. reflexivity.
  - intros k v. reflexivity.
Defined.






(** ** What the effects leave alone *)

Lemma changed_queued (q : updates) (s : Snapshot) (k : PreferenceKey) :
  changed q s k = true → k ∈ q.*1.
Proof.
  unfold changed. destruct (decide (k ∈ q.*1)) as [Hin|Hout]; [done|].
  by rewrite (last_update_None q k Hout).
Qed.

(** X7: a batch of setter calls writes only the records of the keys it
    sets. Every other item of the storage, a record of the page or not,
    is left as it was; so a setter call changes at most its own record,
    and no preset ever writes the record of the pasted text. *)
Theorem dispatch_writes_only_queued
    (q : updates) (s : Snapshot) (ls : Storage) (key : string) :
  (∀ k, k ∈ q.*1 → key ≠ storageKey k) →
  ∃ ls', dispatch q (s, Some ls) = Normal (flush q s, Some ls')
         ∧ items ls' !! key = items ls !! key.
Proof.
  intros Hkey.
  destruct (dispatch_storage q s ls) as (ls' & Hd & _ & _ & _ & Hframe).
  exists ls'. split; [exact Hd|]. apply Hframe.
  intros k Hch. apply Hkey. by apply (changed_queued q s).
Qed.

Lemma dispatch_writes_only_queued_witness :
  ∃ ls', apply Large_print (initialize, Some (storage_of [("readable:text", "kept")]))
         = Normal (flush (presets Large_print) initialize, Some ls')
         ∧ items ls' !! "readable:text" = Some "kept".
Proof.
  destruct (dispatch_writes_only_queued (presets Large_print) initialize
              (storage_of [("readable:text", "kept")]) "readable:text")
    as (ls' & Hd & Hi).
  { intros k Hk Heq. apply (storageKey_inj kInputText k) in Heq. subst k.
    revert Hk. vm_compute. intros Hk. repeat (apply elem_of_cons in Hk as [Hk|Hk]; [discriminate Hk|]).
    by apply elem_of_nil in Hk. }
  exists ls'. split; [exact Hd|]. rewrite Hi. reflexivity.
Defined.

(** X8: mounting writes only the nine records of the page and removes
    nothing: an item under any other key is left as it was, and every
    key that held an item still holds one. *)
Theorem mount_keeps_foreign_items (ls : Storage) :
  ∃ s' ls', mount (Some ls) = Normal (s', Some ls')
            ∧ (∀ key, (∀ k, key ≠ storageKey k) → items ls' !! key = items ls !! key)
            ∧ ∀ key, is_Some (items ls !! key) → is_Some (items ls' !! key).
Proof.
  destruct (mount_storage ls) as (q & ls1 & s' & ls' & Hfc & Hm & _ & _ & Hd & _ & _).
  destruct (first_commit_items hook_order [] ls NoDup_hook_order)
    as (q' & ls1' & Hfc' & Hrec & Hframe).
  unfold first_commit in Hfc. rewrite Hfc in Hfc'. injection Hfc' as <- <-.
  destruct (dispatch_storage q initialize ls1) as (ls2 & Hd' & _ & _ & Hi2 & Hframe2).
  rewrite Hd in Hd'. injection Hd' as _ <-.
  assert (Hforeign : ∀ key, (∀ k, key ≠ storageKey k) →
                            items ls' !! key = items ls !! key).
  { intros key Hkey. rewrite Hframe2 by (intros k _; apply Hkey).
    apply Hframe. intros k _. apply Hkey. }
  exists s', ls'. split; [exact Hm|]. split; [exact Hforeign|].
  intros key Hsome.
  destruct (storageKey_cases key) as [[k ->]|Hkey]; [|by rewrite Hforeign].
  rewrite Hi2. destruct (_ && _); [by eauto|].
  rewrite (Hrec k (elem_of_hook_order k)).
  destruct (setItem_throws ls _ _); [exact Hsome|by eauto].
Qed.

Lemma mount_keeps_foreign_items_witness :
  ∃ s' ls', mount (Some (storage_of [("other-app:token", "abc")])) = Normal (s', Some ls')
            ∧ items ls' !! "other-app:token" = Some "abc".
Proof.
  destruct (mount_keeps_foreign_items (storage_of [("other-app:token", "abc")]))
    as (s' & ls' & Hm & Hforeign & _).
  exists s', ls'. split; [exact Hm|].
  rewrite Hforeign; [reflexivity|]. intros k. destruct k; discriminate.
Defined.

(** X9: a setter call with the value the cell already holds is no
    event at all: the cells are unchanged and nothing is written, also
    when the record is missing or stale. *)
Theorem set_same_value_noop
    (k : PreferenceKey) (v : jsval) (s : Snapshot) (w : Window) :
  Object_is (get k s) v = true →
  set k v (s, w) = Normal (s, w).
Proof.
  intros H. rewrite set_eq, H. simpl.
  apply Object_is_eq in H. subst v. by rewrite setValue_get.
Qed.

Lemma set_same_value_noop_witness :
  set kMaxWidthCh (dec 68 0) (initialize, Some full_storage)
  = Normal (initialize, Some full_storage)
  ∧ items full_storage !! storageKey kMaxWidthCh = None.
Proof.
  split; [|reflexivity].
  apply (set_same_value_noop kMaxWidthCh (dec 68 0) initialize (Some full_storage)).
  reflexivity.
Defined.

(** X10: hydration can be run again. Running the hydrate effects on
    the cells they produced, with the same storage, changes nothing. *)
Theorem hydrate_idempotent (w : Window) (s : Snapshot) :
  ∃ s', hydrate w s = Normal s' ∧ hydrate w s' = Normal s'.
Proof.
  destruct (hydrate_cell w s) as (s' & Hs' & Hcell).
  destruct (hydrate_cell w s') as (s'' & Hs'' & Hcell').
  exists s'. split; [exact Hs'|]. rewrite Hs''. f_equal.
  apply Snapshot_ext. intros k. rewrite Hcell', Hcell.
  by destruct (hydrate_effect w (storageKey k)) as [[v|]|e].
Qed.

(** X11: the persist effects of the first commit do not disturb
    hydration. When every record that can be restored holds a value of
    the declared type of its key (a number of at most fifteen significant
    digits), the page mounts with cells of the declared types, and
    although each hook writes its initial value to its record in the
    same commit in which the record is read, every cell after the mount
    is what the record found at the start parses to, or the initial value
    when there is no such record. *)
Theorem mount_restores_records (w : Window) :
  sound_records w = true →
  ∃ s' w', mount w = Normal (s', w')
           ∧ hydrate w initialize = Normal s'
           ∧ well_typed s' = true
           ∧ ∀ k, get k s' = match hydrate_effect w (storageKey k) with
                             | Normal (Some v) => v
                             | _ => initialValue k
                             end.
Proof.
  intros Hrec0. pose proof (proj1 (sound_records_spec _) Hrec0) as Hrec.
  destruct (mount_hydrate w) as (s' & w' & Hm & Hh).
  destruct (well_typed_hydrate w initialize) as (s'' & Hh' & Hty & Hcell);
    [intros k v E; by destruct (Hrec k v E)|reflexivity|].
  rewrite Hh in Hh'. injection Hh' as <-.
  exists s', w'. split; [exact Hm|]. split; [exact Hh|]. split; [exact Hty|].
  intros k. rewrite Hcell, get_initialize. reflexivity.
Qed.

Lemma mount_restores_records_witness :
  ∃ s' w', mount (Some (storage_of [("readable:maxWidth", "72");
                                    ("readable:theme", JSON_stringify (JStr "dark"))]))
           = Normal (s', w')
           ∧ get kMaxWidthCh s' = dec 72 0
           ∧ get kTheme s' = JStr "dark"
           ∧ get kFontSize s' = dec 18 0.
Proof.
  destruct (mount_restores_records
              (Some (storage_of [("readable:maxWidth", "72");
                                 ("readable:theme", JSON_stringify (JStr "dark"))]))
              eq_refl)
    as (s' & w' & Hm & _ & _ & Hcell).
  exists s', w'. split; [exact Hm|].
  rewrite (Hcell kMaxWidthCh), (Hcell kTheme), (Hcell kFontSize).
  split; [reflexivity|]. split; reflexivity.
Defined.

(** ** Presets *)

(** X12: every preset keeps the declared ranges and types. After any of
    the four presets each of the eight cells it sets has its declared
    type and, for the sliders, lies within the [min] and [max] of its
    range input. *)
Theorem presets_in_range (p : Preset) (s : Snapshot) (k : PreferenceKey) :
  k ≠ kInputText →
  has_type k (get k (flush (presets p) s)) = true
  ∧ in_domain k (get k (flush (presets p) s)) = true.
Proof. intros Hk. by destruct p, k. Qed.

Lemma presets_in_range_witness :
  in_domain kLetterSpacing (get kLetterSpacing (flush (presets Reader) initialize)) = true.
Proof.
  apply (presets_in_range Reader initialize kLetterSpacing). discriminate.
Defined.

Lemma commit_unchanged (q : updates) (s : Snapshot) (w : Window) :
  (∀ k, changed q s k = false) → commit q s w = Normal w.
Proof.
  intros H. unfold commit. generalize hook_order as l.
  induction l as [|k l IH]; [reflexivity|].
  by rewrite foldM_cons, commit_step_eq, H.
Qed.

Lemma last_update_elem (q : updates) (k : PreferenceKey) (v : jsval) :
  last_update q k = Some v → (k, v) ∈ q.
Proof.
  induction q as [|[k0 v0] q IH]; [discriminate|]. simpl.
  destruct (last_update q k) as [v'|].
  - intros [= ->]. right. by apply IH.
  - destruct (decide (k0 = k)) as [->|]; [|discriminate]. intros [= ->]. by left.
Qed.

(** A batch without arrays and objects, run a second time, finds every
    cell as it leaves it. *)
Lemma dispatch_again (q : updates) (s : Snapshot) (w : Window) :
  Forall (λ u, is_object u.2 = false) q →
  dispatch q (flush q s, w) = Normal (flush q s, w).
Proof.
  intros Hq. unfold dispatch. cbn [fst snd].
  assert (Hch : ∀ k, changed q (flush q s) k = false).
  { intros k. unfold changed. rewrite get_flush.
    destruct (last_update q k) as [v|] eqn:E; [|reflexivity]. simpl.
    apply negb_false_iff, Object_is_refl.
    apply last_update_elem in E. rewrite Forall_forall in Hq. apply (Hq _ E). }
  rewrite (commit_unchanged _ _ _ Hch). simpl. f_equal. f_equal.
  apply Snapshot_ext. intros k. rewrite !get_flush.
  by destruct (last_update q k).
Qed.

(** X13: a preset applied twice is the preset applied once. Once the
    cells hold the values of a preset, a further click on that preset
    changes no cell and writes nothing, whatever the storage holds at
    that moment. *)
Theorem apply_idempotent (p : Preset) (s : Snapshot) (w w2 : Window) :
  ∃ w', apply p (s, w) = Normal (flush (presets p) s, w')
        ∧ apply p (flush (presets p) s, w2) = Normal (flush (presets p) s, w2).
Proof.
  destruct (dispatch_total (presets p) s w) as (w' & Hd).
  exists w'. split; [exact Hd|].
  apply dispatch_again. destruct p; repeat constructor.
Qed.

(** X14: the preset [Default] is the initial state of the page: it puts
    each of the eight cells it sets back to the initial value of its
    hook. *)
Theorem Default_restores_initial (s : Snapshot) (k : PreferenceKey) :
  k ≠ kInputText →
  get k (flush (presets Default) s) = initialValue k.
Proof. intros Hk. by destruct k. Qed.

Lemma Default_restores_initial_witness :
  get kParaSpacingEm (flush (presets Default) (flush (presets Large_print) initialize))
  = initialValue kParaSpacingEm.
Proof.
  apply (Default_restores_initial _ kParaSpacingEm). discriminate.
Defined.

(** ** Projection of cells that are not well typed *)

Lemma ToString_not_object (v : jsval) :
  is_object v = false → ∃ x, ToString v = Normal x.
Proof. destruct v as [|[]| | | |]; try discriminate; intros _; by eexists. Qed.

(** X15: the projection needs no well-typed snapshot to complete. As
    long as none of the seven cells it converts to text holds an array or
    an object, both effects complete normally, whatever strings, numbers,
    booleans or [null] the cells hold. *)
Theorem project_completes_without_objects (s : Snapshot) (d : Document) :
  (∀ k, k ≠ kFontFamily → k ≠ kInputText → is_object (get k s) = false) →
  ∃ d', project s d = Normal d'.
Proof.
  intros H.
  destruct (ToString_not_object (theme s)) as [x0 H0]; [by apply (H kTheme)|].
  destruct (ToString_not_object (fontSize s)) as [x1 H1]; [by apply (H kFontSize)|].
  destruct (ToString_not_object (lineHeight s)) as [x2 H2]; [by apply (H kLineHeight)|].
  destruct (ToString_not_object (letterSpacing s)) as [x3 H3]; [by apply (H kLetterSpacing)|].
  destruct (ToString_not_object (wordSpacing s)) as [x4 H4]; [by apply (H kWordSpacing)|].
  destruct (ToString_not_object (maxWidthCh s)) as [x5 H5]; [by apply (H kMaxWidthCh)|].
  destruct (ToString_not_object (paraSpacingEm s)) as [x6 H6]; [by apply (H kParaSpacingEm)|].
  unfold project, theme_effect, style_effect.
  rewrite H0, H1, H2, H3, H4, H5, H6. simpl. eauto.
Qed.

Lemma project_completes_without_objects_witness :
  ∃ d', project (setValue kFontSize (JStr "huge") (setValue kTheme JNull initialize))
          (mkDocument ∅ ∅) = Normal d'.
Proof.
  apply project_completes_without_objects.
  intros k _ _. destruct k; reflexivity.
Defined.

Lemma ToString_object_throws (props : list (string * jsval)) :
  has_key "toString" props = true → ToString (JObj props) = Throw TypeError.
Proof. intros H. unfold ToString. simpl. by rewrite H. Qed.

(** The only exception of [ToString] is the [TypeError]. *)
Lemma ToString_chars_throw (v : jsval) (e : exn) :
  ToString_chars v = Throw e → e = TypeError.
Proof.
  revert v e. fix IH 1. intros v e.
  destruct v as [|[]|n|s|l|props]; simpl; try discriminate.
  - destruct (_ l) as [ps|e'] eqn:E; simpl; [discriminate|].
    intros [= <-]. revert e' E.
    induction l as [|x l IHl]; intros e' E; [discriminate|].
    assert (Hx : x = JNull ∨ ∃ c, ToString_chars x = c ∧
                 (c ≫= λ p, (fix elems (l : list jsval) : completion (list (list ascii)) :=
                   match l with
                   | [] => Normal []
                   | JNull :: l' => ps ← elems l'; Normal ([] :: ps)
                   | x :: l' => p ← ToString_chars x; ps ← elems l'; Normal (p :: ps)
                   end) l ≫= λ ps, Normal (p :: ps)) = Throw e').
    { destruct x; [by left|right; eexists; split; [reflexivity|exact E]..]. }
    destruct Hx as [->|(c & Hc & Hc')].
    + cbn -[ToString_chars] in E.
      destruct (_ l) as [ps|e''] eqn:E'; simpl in E; [discriminate|].
      injection E as <-. by apply IHl.
    + destruct c as [p|e'']; simpl in Hc'.
      * destruct (_ l) as [ps|e''] eqn:E'; simpl in Hc'; [discriminate|].
        injection Hc' as <-. by apply IHl.
      * injection Hc' as <-. by apply (IH x).
  - destruct (has_key "toString" props); [|discriminate]. by intros [= <-].
Qed.

Lemma ToString_throw (v : jsval) (e : exn) : ToString v = Throw e → e = TypeError.
Proof.
  unfold ToString. destruct (ToString_chars v) as [cs|e'] eqn:E; simpl; [discriminate|].
  intros [= <-]. by apply (ToString_chars_throw v).
Qed.

(** X16: a theme record that holds an object with a property
    [toString] makes the projection throw. On a page whose cells have
    their declared types, when the record of the theme parses to such an
    object and every other record that can be restored holds a value of
    the declared type of its key, hydration accepts the object as the
    value of the theme, every other cell keeps its declared type, and
    the theme effect, which converts the theme to text for the attribute
    [data-theme], throws a [TypeError] that nothing catches. *)
Theorem project_throws_on_shadowed_toString
    (w : Window) (s : Snapshot) (raw : string)
    (props : list (string * jsval)) (d : Document) :
  well_typed s = true →
  read_item w (storageKey kTheme) = Normal (Some raw) →
  JSON_parse raw = Normal (JObj props) →
  has_key "toString" props = true →
  (∀ k v, k ≠ kTheme → hydrate_effect w (storageKey k) = Normal (Some v) →
          has_type k v = true) →
  ∃ s', hydrate w s = Normal s'
        ∧ theme s' = JObj props
        ∧ (∀ k, k ≠ kTheme → has_type k (get k s') = true)
        ∧ theme_effect s' d = Throw TypeError
        ∧ project s' d = Throw TypeError.
Proof.
  intros Hs Hr Hp Hkey Hrec.
  destruct (hydrate_cell w s) as (s' & Hs' & Hcell).
  assert (Hget : theme s' = JObj props).
  { change (theme s') with (get kTheme s').
    by rewrite Hcell, (hydrate_effect_parsed w _ raw _ Hr Hp). }
  assert (Hthrow : theme_effect s' d = Throw TypeError).
  { unfold theme_effect. by rewrite Hget, (ToString_object_throws props Hkey). }
  exists s'. split_and!; [exact Hs'|exact Hget| |exact Hthrow|].
  - intros k Hk. rewrite Hcell.
    destruct (hydrate_effect w (storageKey k)) as [[v|]|e] eqn:E.
    + by apply Hrec.
    + by apply well_typed_cells.
    + by apply well_typed_cells.
  - unfold project. by rewrite Hthrow.
Qed.

Lemma project_throws_on_shadowed_toString_witness :
  ∃ s', hydrate (Some (storage_of [("readable:theme",
                                    JSON_stringify (JObj [("toString", dec 1 0)]))]))
          initialize = Normal s'
        ∧ theme s' = JObj [("toString", dec 1 0)]
        ∧ project s' (mkDocument ∅ ∅) = Throw TypeError.
Proof.
  destruct (project_throws_on_shadowed_toString
              (Some (storage_of [("readable:theme",
                                  JSON_stringify (JObj [("toString", dec 1 0)]))]))
              initialize (JSON_stringify (JObj [("toString", dec 1 0)]))
              [("toString", dec 1 0)] (mkDocument ∅ ∅))
    as (s' & Hh & Ht & _ & _ & Hp); [reflexivity..| |].
  - intros k v Hk. destruct k; try done; vm_compute; discriminate.
  - exists s'. split; [exact Hh|]. split; [exact Ht|exact Hp].
Defined.

(** ** The preview *)

Lemma split_lines_cons (c : ascii) (r : string) :
  split_lines (String c r) =
  if Ascii.eqb c newline then "" :: split_lines r
  else match split_lines r with
       | h :: t => String c h :: t
       | [] => [String c ""]
       end.
Proof. reflexivity. Qed.

Lemma split_lines_nonempty (t : string) : ∃ h l, split_lines t = h :: l.
Proof.
  induction t as [|c r (h & l & IH)]; [by eauto|].
  rewrite split_lines_cons, IH. destruct (Ascii.eqb c newline); eauto.
Qed.

Lemma split_lines_concat (t : string) : String.concat lf (split_lines t) = t.
Proof.
  induction t as [|c r IH]; [reflexivity|].
  rewrite split_lines_cons.
  destruct (split_lines_nonempty r) as (h & l & Hr). rewrite Hr in IH |- *.
  destruct (Ascii.eqb_spec c newline) as [->|_].
  - change (String.concat lf ("" :: h :: l))
      with (String newline (String.concat lf (h :: l))).
    by rewrite IH.
  - assert (Hc : String.concat lf (String c h :: l)
                 = String c (String.concat lf (h :: l))) by (by destruct l).
    by rewrite Hc, IH.
Qed.

Lemma split_lines_no_newline (t p : string) :
  p ∈ split_lines t → newline ∉ list_ascii_of_string p.
Proof.
  revert p. induction t as [|c r IH]; intros p.
  - intros ->%list_elem_of_singleton. apply not_elem_of_nil.
  - rewrite split_lines_cons.
    destruct (split_lines_nonempty r) as (h & l & Hr). rewrite Hr in IH |- *.
    destruct (Ascii.eqb_spec c newline) as [->|Hc].
    + intros [->|Hp]%elem_of_cons; [apply not_elem_of_nil|by apply IH].
    + intros [->|Hp]%elem_of_cons.
      * simpl. rewrite not_elem_of_cons. split; [congruence|].
        apply IH. by left.
      * apply IH. by right.
Qed.

Lemma split_lines_length (t : string) :
  length (split_lines t)
  = S (length (filter (λ c, c = newline) (list_ascii_of_string t))).
Proof.
  induction t as [|c r IH]; [reflexivity|].
  rewrite split_lines_cons. simpl list_ascii_of_string. rewrite filter_cons.
  destruct (split_lines_nonempty r) as (h & l & Hr). rewrite Hr in IH |- *.
  destruct (Ascii.eqb_spec c newline) as [->|Hc].
  - rewrite decide_True by done. simpl in *. by rewrite IH.
  - rewrite decide_False by done. exact IH.
Qed.

Lemma imap_keys {A} (l : list A) (n : nat) :
  (imap (λ idx x, (n + idx, x)%nat) l).*1 = seq n (length l)
  ∧ (imap (λ idx x, (n + idx, x)%nat) l).*2 = l.
Proof.
  revert n. induction l as [|x l IH]; intros n; [by split|].
  rewrite imap_cons. cbn [fmap list_fmap length seq fst snd].
  rewrite (imap_ext _ (λ idx y, (S n + idx, y)%nat) l)
    by (intros; simpl; f_equal; lia).
  destruct (IH (S n)) as [-> ->]. by rewrite Nat.add_0_r.
Qed.

(** X17: the paragraphs of the preview are the lines of the pasted
    text. For a non-empty text the preview has one paragraph more than
    the text has line feeds, none of them contains a line feed, their
    keys count up from zero, and joined with line feeds they give back
    the text. *)
Theorem preview_lines (s : Snapshot) (t : string) :
  inputText s = JStr t → t ≠ "" →
  ∃ ps, preview s = Normal ps
        ∧ ps.*1 = seq 0 (length ps)
        ∧ String.concat lf ps.*2 = t
        ∧ (∀ p, p ∈ ps.*2 → newline ∉ list_ascii_of_string p)
        ∧ length ps = S (length (filter (λ c, c = newline) (list_ascii_of_string t))).
Proof.
  intros Ht Hne. unfold preview. rewrite Ht. simpl.
  destruct (String.eqb_spec t "") as [|_]; [done|]. simpl.
  eexists. split; [reflexivity|].
  destruct (imap_keys (split_lines t) 0) as [H1 H2]. simpl in H1, H2.
  rewrite length_imap, H1, H2. split_and!.
  - reflexivity.
  - apply split_lines_concat.
  - intros p. apply split_lines_no_newline.
  - apply split_lines_length.
Qed.

Lemma preview_lines_witness :
  ∃ ps, preview (setValue kInputText (JStr ("one" +:+ lf +:+ lf +:+ "two")) initialize)
        = Normal ps
        ∧ ps.*2 = ["one"; ""; "two"].
Proof.
  destruct (preview_lines
              (setValue kInputText (JStr ("one" +:+ lf +:+ lf +:+ "two")) initialize)
              ("one" +:+ lf +:+ lf +:+ "two") eq_refl ltac:(discriminate))
    as (ps & Hp & _).
  exists ps. split; [exact Hp|].
  vm_compute in Hp. injection Hp as <-. reflexivity.
Defined.

(** X18: a record of the pasted text that is valid JSON but no string
    breaks the render. Hydration puts the value into the cell; when it
    is truthy (a number other than zero, [true], an array, an object) it
    has no callable [split], and computing the preview throws a
    [TypeError]. A falsy value shows the built-in sample instead. *)
Theorem preview_throws_on_non_string
    (w : Window) (s : Snapshot) (raw : string) (v : jsval) :
  read_item w (storageKey kInputText) = Normal (Some raw) →
  JSON_parse raw = Normal v →
  (∀ t, v ≠ JStr t) →
  ∃ s', hydrate w s = Normal s'
        ∧ inputText s' = v
        ∧ preview s' = if ToBoolean v then Throw TypeError
                       else Normal (imap (λ idx para, (idx, para)) (split_lines sample)).
Proof.
  intros Hr Hp Hv.
  destruct (hydrate_cell w s) as (s' & Hs' & Hcell).
  assert (Hget : inputText s' = v).
  { pose proof (Hcell kInputText) as H.
    by rewrite (hydrate_effect_parsed w _ raw v Hr Hp) in H. }
  exists s'. split; [exact Hs'|]. split; [exact Hget|].
  unfold preview. rewrite Hget.
  destruct (ToBoolean v) eqn:Hb.
  - destruct v; try reflexivity. by destruct (Hv s0).
  - reflexivity.
Qed.

Lemma preview_throws_on_non_string_witness :
  ∃ s', hydrate (Some (storage_of [("readable:text", "42")])) initialize = Normal s'
        ∧ preview s' = Throw TypeError.
Proof.
  destruct (preview_throws_on_non_string
              (Some (storage_of [("readable:text", "42")])) initialize
              "42" (dec 42 0) eq_refl eq_refl ltac:(discriminate))
    as (s' & Hs' & _ & Hp).
  exists s'. split; [exact Hs'|exact Hp].
Defined.

(** X19: typing shows at once. After the text area's handler the
    preview shows the lines of the typed text, and the lines of the
    built-in sample when the text area is emptied. *)
Theorem typing_updates_preview (value : string) (st : Snapshot * Window) :
  ∃ st', onChange_paste value st = Normal st'
         ∧ preview st'.1
           = Normal (imap (λ idx para, (idx, para))
                       (split_lines (if String.eqb value "" then sample else value))).
Proof.
  destruct st as [s w].
  destruct (dispatch_total [(kInputText, JStr value)] s w) as (w' & Hd).
  exists (setValue kInputText (JStr value) s, w'). split; [exact Hd|].
  unfold preview. simpl. by destruct (String.eqb value "").
Qed.

(** ** The theme buttons *)

(** X20: a click on a theme button shows in the header and on the root
    element. After the handler of the button [t] the projection sets
    [data-theme] to [t], and of the three buttons exactly the one
    labelled [t] is pressed. *)
Theorem click_theme_shows (t : string) (st : Snapshot * Window) (d : Document) :
  ∃ st' d', click_theme t st = Normal st'
            ∧ theme_effect st'.1 d = Normal d'
            ∧ attributes d' !! "data-theme" = Some t
            ∧ theme_buttons st'.1 = map (λ t', (t', String.eqb t t')) themes.
Proof.
  destruct st as [s w].
  destruct (dispatch_total [(kTheme, JStr t)] s w) as (w' & Hd).
  exists (setValue kTheme (JStr t) s, w'), (setAttribute "data-theme" t d).
  split; [exact Hd|]. split_and!.
  - unfold theme_effect, ToString. simpl. by rewrite string_of_list_ascii_of_string.
  - apply lookup_insert_eq.
  - reflexivity.
Qed.

(** ** A stored value lost by the first commit *)

(** X21: the first commit writes the initial value over a record before
    the restored value is written back. On a storage whose restorable
    records hold values of the declared types of their keys (numbers of
    at most fifteen significant digits), when that first write succeeds
    and the write of the restored value throws, the page is mounted with
    cells of the declared types and the cell holds the restored value
    for this visit, but the record now holds the serialised initial
    value: the stored preference is gone for the next visit. *)
Theorem mount_loses_record_when_rewrite_fails
    (ls : Storage) (k : PreferenceKey) (raw : string) (v : jsval) :
  sound_records (Some ls) = true →
  read_item (Some ls) (storageKey k) = Normal (Some raw) →
  JSON_parse raw = Normal v →
  setItem_throws ls (storageKey k) (JSON_stringify (initialValue k)) = false →
  setItem_throws ls (storageKey k) (JSON_stringify v) = true →
  ∃ s' ls', mount (Some ls) = Normal (s', Some ls')
            ∧ well_typed s' = true
            ∧ get k s' = v
            ∧ items ls' !! storageKey k = Some (JSON_stringify (initialValue k)).
Proof.
  intros Hrec0 Hr Hp Hw0 Hw1.
  pose proof (proj1 (sound_records_spec _) Hrec0) as Hsound.
  destruct (mount_storage ls) as (q & ls1 & s' & ls' & Hfc & Hm & Hs' & Hh & Hd & Hg1 & Hs1).
  destruct (first_commit_items hook_order [] ls NoDup_hook_order)
    as (q' & ls1' & Hfc' & Hrec & _).
  unfold first_commit in Hfc. rewrite Hfc in Hfc'. injection Hfc' as <- <-.
  destruct (dispatch_storage q initialize ls1) as (ls2 & Hd' & _ & _ & Hi2 & _).
  rewrite Hd in Hd'. injection Hd' as _ <-.
  destruct (well_typed_hydrate (Some ls) initialize) as (s'' & Hh' & Hty & Hcell);
    [intros k' v' E; by destruct (Hsound k' v' E)|reflexivity|].
  rewrite Hh in Hh'. injection Hh' as <-.
  assert (Hget : get k s' = v)
    by (by rewrite Hcell, (hydrate_effect_parsed _ _ raw v Hr Hp)).
  exists s', ls'. split; [exact Hm|]. split; [exact Hty|]. split; [exact Hget|].
  rewrite Hi2, <- Hs', Hget, Hs1, Hw1, andb_false_r.
  rewrite (Hrec k (elem_of_hook_order k)). by rewrite Hw0.
Qed.

Lemma mount_loses_record_when_rewrite_fails_witness :
  ∃ s' ls',
    mount (Some (mkStorage {["readable:fontSize" := "24"]} (λ _, false)
                   (λ _ value, String.eqb value "24")))
    = Normal (s', Some ls')
    ∧ well_typed s' = true
    ∧ get kFontSize s' = dec 24 0
    ∧ items ls' !! "readable:fontSize" = Some "18".
Proof.
  apply (mount_loses_record_when_rewrite_fails
           (mkStorage {["readable:fontSize" := "24"]} (λ _, false)
              (λ _ value, String.eqb value "24"))
           kFontSize "24" (dec 24 0)); reflexivity.
Defined.
